(** * promptbuilder: a shallow embedding of [src/builder.ts]

    The development follows the source file top to bottom:

    - the JavaScript values the functions receive, with the few operations
      of the language the source relies on ([in], property read and write,
      [Object.entries], [String], [JSON.stringify], [String.prototype.replace]);
    - [escapeXml], [objectToXml] and [replaceTemplateVariables], the three
      exported functions;
    - the class [PromptBuilder]: its instances live in a store, every method
      allocates a new instance, and the function returned by [build] runs
      against the store as well;
    - the theorems, one group per function. *)

From Stdlib Require Import ZArith String Ascii DecimalString Sorted Permutation.
From stdpp Require Import gmap strings list.

Local Open Scope Z_scope.
Local Open Scope nat_scope.
Local Open Scope stdpp_scope.

(** stdpp blocks the unfolding of string concatenation; the proofs below
    compute with it. *)
#[local] Arguments String.append !_ _ / : simpl nomatch.

(** ** Strings

    A JavaScript string is modelled by the bytes of its UTF-8 encoding.
    Every character the source inspects (the five XML characters, braces,
    word characters, the characters JSON escapes) is ASCII, and no byte of
    a multi-byte sequence is ASCII, so matching on bytes and matching on
    UTF-16 code units agree. *)

Definition quot : ascii := "034"%char.
Definition newline : ascii := "010"%char.
Definition backslash : ascii := "092"%char.

Definition str1 (c : ascii) : string := String c EmptyString.

(** [Array.prototype.join] with the empty separator, on an array of strings. *)
Definition join (parts : list string) : string := String.concat EmptyString parts.

(** [Array.prototype.join] with a separator, on an array of strings. *)
Definition join_with (sep : string) (parts : list string) : string :=
  String.concat sep parts.

(** [String(n)] for a number whose value is an integer that prints in full
    (no exponent), which is the case below 10^21 in absolute value. *)
Definition string_of_Z (z : Z) : string := NilZero.string_of_int (Z.to_int z).

(** ** Values

    The JSON-like values of the value bag and of the examples, together with
    [undefined] and with the native functions a plain object inherits from
    [Object.prototype]: the source reaches them through the [in] operator.

    An object is the list of its own enumerable properties in the order
    [Object.entries] yields them.  A number is an integer-valued double:
    nothing below depends on how a fraction prints. *)

#[local] Unset Elimination Schemes.
Inductive value : Type :=
| Undefined
| Null
| Bool (b : bool)
| Num (z : Z)
| Str (s : string)
| Arr (items : list value)
| Obj (own : list (string * value))
| Native (name : string).
#[local] Set Elimination Schemes.

Abbreviation props := (list (string * value)).

(** ** Properties of plain objects *)

(** The property names every plain object inherits from [Object.prototype]. *)
Definition Object_prototype_names : list string :=
  [ "constructor"; "__defineGetter__"; "__defineSetter__"; "hasOwnProperty";
    "__lookupGetter__"; "__lookupSetter__"; "isPrototypeOf";
    "propertyIsEnumerable"; "toString"; "valueOf"; "__proto__";
    "toLocaleString" ]%string.

Definition inherited (key : string) : bool :=
  bool_decide (key ∈ Object_prototype_names).

Fixpoint own_property (o : props) (key : string) : option value :=
  match o with
  | [] => None
  | (k, v) :: r => if String.eqb k key then Some v else own_property r key
  end.

Definition has_own (o : props) (key : string) : bool :=
  match own_property o key with Some _ => true | None => false end.

(** [key in o]: the own properties first, then the prototype chain, which
    for a plain object is [Object.prototype] alone. *)
Definition has_property (o : props) (key : string) : bool :=
  has_own o key || inherited key.

(** [o[key]]: an own property shadows an inherited one; the accessor
    [__proto__] answers [Object.prototype] itself, which has no enumerable
    property of its own and so is indistinguishable from the empty object
    for [Object.entries] and [JSON.stringify]; the other inherited names
    are native functions; anything else reads [undefined]. *)
Definition get_property (o : props) (key : string) : value :=
  match own_property o key with
  | Some v => v
  | None =>
      if String.eqb key "__proto__" then Obj []
      else if inherited key then Native key
      else Undefined
  end.

(** A canonical array index: the decimal numeral, without leading zero, of
    an integer below 2^32 - 1.  Such keys are enumerated first. *)
Definition digit_value (c : ascii) : option N :=
  let n := N_of_ascii c in
  if ((48 <=? n) && (n <=? 57))%N then Some (n - 48)%N else None.

Fixpoint digits_value (acc : N) (s : string) : option N :=
  match s with
  | EmptyString => Some acc
  | String c r =>
      match digit_value c with
      | Some d => digits_value (10 * acc + d)%N r
      | None => None
      end
  end.

Definition array_index (key : string) : option N :=
  match key with
  | EmptyString => None
  | String c r =>
      if Ascii.eqb c "0" && negb (String.eqb r EmptyString) then None
      else
        match digits_value 0 key with
        | Some n => if (n <? 4294967295)%N then Some n else None
        | None => None
        end
  end.

Fixpoint replace_own (o : props) (key : string) (v : value) : props :=
  match o with
  | [] => []
  | (k, w) :: r =>
      if String.eqb k key then (k, v) :: r else (k, w) :: replace_own r key v
  end.

(** A new index key goes before the first key that is no index or is a
    larger index. *)
Fixpoint insert_index (i : N) (key : string) (v : value) (o : props) : props :=
  match o with
  | [] => [(key, v)]
  | (k, w) :: r =>
      match array_index k with
      | Some j => if (j <? i)%N then (k, w) :: insert_index i key v r
                  else (key, v) :: o
      | None => (key, v) :: o
      end
  end.

(** [o[key] = v] on a plain object: assigning [__proto__] runs the setter
    of [Object.prototype] and creates no property; an existing property
    keeps its place; a new one is enumerated after the older ones, index
    keys apart. *)
Definition set_property (o : props) (key : string) (v : value) : props :=
  if String.eqb key "__proto__" then o
  else if has_own o key then replace_own o key v
  else match array_index key with
       | Some i => insert_index i key v o
       | None => o ++ [(key, v)]
       end.

(** [String(v)], also the conversion a template literal applies.  Objects
    are plain: none overrides [toString].  The text of a native function
    is the one V8 prints. *)
Fixpoint ToString (v : value) : string :=
  match v with
  | Undefined => "undefined"
  | Null => "null"
  | Bool b => if b then "true" else "false"
  | Num z => string_of_Z z
  | Str s => s
  | Arr items =>
      join_with ","
        (map (fun x => match x with
                       | Undefined | Null => EmptyString
                       | _ => ToString x
                       end) items)
  | Obj _ => "[object Object]"
  | Native name => "function " +:+ name +:+ "() { [native code] }"
  end.

(** ** [JSON.stringify]

    [QuoteJSONString]: the quote, the backslash and the control characters
    are escaped, everything else is copied. *)

Definition hex_digit (n : N) : ascii :=
  if (n <? 10)%N then ascii_of_N (48 + n) else ascii_of_N (87 + n).

Definition json_escape_char (c : ascii) : string :=
  let n := N_of_ascii c in
  if (n =? 8)%N then String backslash "b"
  else if (n =? 9)%N then String backslash "t"
  else if (n =? 10)%N then String backslash "n"
  else if (n =? 12)%N then String backslash "f"
  else if (n =? 13)%N then String backslash "r"
  else if (n =? 34)%N then String backslash (str1 quot)
  else if (n =? 92)%N then String backslash (str1 backslash)
  else if (n <? 32)%N then
    String backslash "u00" +:+ str1 (hex_digit (n / 16)) +:+ str1 (hex_digit (n mod 16))
  else str1 c.

Fixpoint json_escape (s : string) : string :=
  match s with
  | EmptyString => EmptyString
  | String c r => json_escape_char c +:+ json_escape r
  end.

Definition QuoteJSONString (s : string) : string :=
  str1 quot +:+ json_escape s +:+ str1 quot.

(** [JSON.stringify(v)] with no replacer and no indentation; [None] is the
    result [undefined].  A member of an array that has no JSON text is
    written [null], a property that has none is left out.  No object of the
    model carries a [toJSON] method that would be called. *)
Fixpoint JSON_stringify (v : value) : option string :=
  match v with
  | Undefined => None
  | Null => Some "null"%string
  | Bool b => Some (if b then "true" else "false")%string
  | Num z => Some (string_of_Z z)
  | Str s => Some (QuoteJSONString s)
  | Arr items =>
      Some ("[" +:+
            join_with ","
              (map (fun x => default "null"%string (JSON_stringify x)) items)
            +:+ "]")
  | Obj own =>
      Some ("{" +:+
            join_with ","
              ((fix members (l : props) : list string :=
                  match l with
                  | [] => []
                  | (k, x) :: r =>
                      match JSON_stringify x with
                      | Some t => (QuoteJSONString k +:+ ":" +:+ t) :: members r
                      | None => members r
                      end
                  end) own)
            +:+ "}")
  | Native _ => None
  end.

(** What a template literal, or the result of a replacer function, makes
    of the result of [JSON.stringify]. *)
Definition stringified (v : value) : string :=
  default "undefined"%string (JSON_stringify v).

(** ** [String.prototype.replace] *)

(** [str.replace(/c/g, by)] for a pattern that is the single character [c]
    and a replacement text without dollar sign. *)
Fixpoint replace_all (c : ascii) (by_ : string) (str : string) : string :=
  match str with
  | EmptyString => EmptyString
  | String a r =>
      if Ascii.eqb a c then by_ +:+ replace_all c by_ r
      else String a (replace_all c by_ r)
  end.

(** The class [\w]. *)
Definition is_word (c : ascii) : bool :=
  let n := N_of_ascii c in
  ((48 <=? n) && (n <=? 57) || (65 <=? n) && (n <=? 90)
   || (97 <=? n) && (n <=? 122) || (n =? 95))%N.

(** The longest prefix of word characters, and what follows it. *)
Fixpoint word_prefix (s : string) : string * string :=
  match s with
  | EmptyString => (EmptyString, EmptyString)
  | String c r =>
      if is_word c then
        let '(w, rest) := word_prefix r in (String c w, rest)
      else (EmptyString, s)
  end.

(** One attempt of [/\{\{(\w+)\}\}/] at the start of [s]: the captured key
    and the text after the match.  The quantifier is greedy, and giving
    back characters cannot help: what follows a shorter run of word
    characters is a word character, not a closing brace. *)
Definition match_placeholder (s : string) : option (string * string) :=
  match s with
  | String a (String b r) =>
      if Ascii.eqb a "{" && Ascii.eqb b "{" then
        match word_prefix r with
        | (String k ks, String c (String d rest)) =>
            if Ascii.eqb c "}" && Ascii.eqb d "}" then Some (String k ks, rest)
            else None
        | _ => None
        end
      else None
  | _ => None
  end.

(** [s.replace(/\{\{(\w+)\}\}/g, replacer)]: the matches are searched from
    left to right, each search starting where the previous match ended;
    [replacer] receives the matched text and the captured key.  Every step
    consumes a character, so the length of [s] is fuel enough. *)
Fixpoint replace_placeholders (fuel : nat)
    (replacer : string -> string -> string) (s : string) : string :=
  match fuel with
  | O => s
  | S fuel' =>
      match match_placeholder s with
      | Some (key, rest) =>
          replacer ("{{" +:+ key +:+ "}}") key
          +:+ replace_placeholders fuel' replacer rest
      | None =>
          match s with
          | EmptyString => EmptyString
          | String c r => String c (replace_placeholders fuel' replacer r)
          end
      end
  end.

(** * The exported functions *)

(** [escapeXml], src/builder.ts lines 158-165: five passes, in this order. *)
Definition escapeXml (str : string) : string :=
  replace_all "'" "&apos;"
    (replace_all quot "&quot;"
       (replace_all ">" "&gt;"
          (replace_all "<" "&lt;"
             (replace_all "&" "&amp;" str)))).

(** The attribute of an opening tag:
    [metadata && "index" in metadata ? ` index="${metadata["index"]}"` : ""]. *)
Definition index_attribute (metadata : option props) : string :=
  match metadata with
  | Some m =>
      if has_property m "index"
      then " index=" +:+ str1 quot +:+ ToString (get_property m "index") +:+ str1 quot
      else EmptyString
  | None => EmptyString
  end.

(** [objectToXml], src/builder.ts lines 167-200.  The branches are tested
    in the order of the source; the last one, [String(obj)], is reached by
    functions only. *)
Fixpoint objectToXml (obj : value) (metadata : option props) : string :=
  match obj with
  | Str s => escapeXml (ToString obj)
  | Num _ | Bool _ => ToString obj
  | Arr items =>
      join
        ((fix each (index : nat) (l : list value) : list string :=
            match l with
            | [] => []
            | item :: r =>
                objectToXml item (Some [("index"%string, Num (Z.of_nat index))])
                :: each (S index) r
            end) O items)
  | Null | Undefined => EmptyString
  | Obj own =>
      join
        ((fix each (l : props) : list string :=
            match l with
            | [] => []
            | (key, v) :: r =>
                ("<" +:+ key +:+ index_attribute metadata +:+ ">"
                 +:+ objectToXml v None +:+ "</" +:+ key +:+ ">")
                :: each r
            end) own)
  | Native _ => ToString obj
  end.

(** [replaceTemplateVariables], src/builder.ts lines 202-213. *)
Definition replaceTemplateVariables (template : string) (values : props) : string :=
  replace_placeholders (String.length template)
    (fun match_ key =>
       if has_property values key then stringified (get_property values key)
       else match_)
    template.

(** * The class [PromptBuilder]

    Instances, their two arrays and the plain objects handed to the prompt
    function are objects of a store, named by their location: a method
    receives [this] as a location and answers the location of the builder
    it returns.  A computation threads the store and stops on an access
    that the types of the source exclude. *)

Definition loc := positive.

(** [PromptBuilderTypes.Example]: [{ input: unknown; output: unknown }]. *)
Record Example := { input : value; output : value }.

Inductive object : Type :=
| Builder (_instruction : string) (_examples : loc) (_taskKeys : loc)
| Examples (items : list Example)
| Keys (items : list string)
| Plain (own : props).

Abbreviation store := (gmap loc object).

Definition M (A : Type) : Type := store -> option (A * store).

Definition ret {A} (a : A) : M A := fun σ => Some (a, σ).

Definition bind {A B} (m : M A) (k : A -> M B) : M B :=
  fun σ => match m σ with
           | Some (a, σ') => k a σ'
           | None => None
           end.

Definition stuck {A} : M A := fun _ => None.

Notation "x <- m ;; k" := (bind m (fun x => k))
  (at level 20, m at level 99, k at level 200, only parsing).
Notation "m ;; k" := (bind m (fun _ => k))
  (at level 100, k at level 200, only parsing, right associativity).

(** A new object is given a location the store does not use. *)
Definition alloc (o : object) : M loc :=
  fun σ => let l := fresh (dom σ) in Some (l, <[l := o]> σ).

Definition load (l : loc) : M object :=
  fun σ => match σ !! l with
           | Some o => Some (o, σ)
           | None => None
           end.

Definition assign (l : loc) (o : object) : M unit :=
  fun σ => match σ !! l with
           | Some _ => Some (tt, <[l := o]> σ)
           | None => None
           end.

(** Field reads and writes on a builder. *)
Definition get_instruction (b : loc) : M string :=
  o <- load b ;; match o with Builder i _ _ => ret i | _ => stuck end.

Definition get_examples (b : loc) : M loc :=
  o <- load b ;; match o with Builder _ e _ => ret e | _ => stuck end.

Definition get_taskKeys (b : loc) : M loc :=
  o <- load b ;; match o with Builder _ _ t => ret t | _ => stuck end.

Definition set_instruction (b : loc) (i : string) : M unit :=
  o <- load b ;;
  match o with Builder _ e t => assign b (Builder i e t) | _ => stuck end.

Definition set_examples (b : loc) (e : loc) : M unit :=
  o <- load b ;;
  match o with Builder i _ t => assign b (Builder i e t) | _ => stuck end.

Definition set_taskKeys (b : loc) (t : loc) : M unit :=
  o <- load b ;;
  match o with Builder i e _ => assign b (Builder i e t) | _ => stuck end.

(** The elements of an array, the properties of a plain object. *)
Definition read_examples (a : loc) : M (list Example) :=
  o <- load a ;; match o with Examples l => ret l | _ => stuck end.

Definition read_keys (a : loc) : M (list string) :=
  o <- load a ;; match o with Keys l => ret l | _ => stuck end.

Definition read_plain (a : loc) : M props :=
  o <- load a ;; match o with Plain l => ret l | _ => stuck end.

(** [new PromptBuilder()]: the field initialisers of lines 28-30. *)
Definition new_PromptBuilder : M loc :=
  examples <- alloc (Examples []) ;;
  taskKeys <- alloc (Keys []) ;;
  alloc (Builder EmptyString examples taskKeys).

(** [[...this._examples]] and [[...this._taskKeys]]: a new array. *)
Definition spread_examples (this : loc) (more : list Example) : M loc :=
  a <- get_examples this ;;
  l <- read_examples a ;;
  alloc (Examples (l ++ more)).

Definition spread_taskKeys (this : loc) (more : list string) : M loc :=
  a <- get_taskKeys this ;;
  l <- read_keys a ;;
  alloc (Keys (l ++ more)).

(** [instruction], lines 38-44. *)
Definition instruction (this : loc) (template : string) : M loc :=
  builder <- new_PromptBuilder ;;
  set_instruction builder template ;;
  (e <- spread_examples this [] ;; set_examples builder e) ;;
  (t <- spread_taskKeys this [] ;; set_taskKeys builder t) ;;
  ret builder.

(** [example], lines 54-63. *)
Definition example (this : loc) (input output : value) : M loc :=
  builder <- new_PromptBuilder ;;
  (i <- get_instruction this ;; set_instruction builder i) ;;
  (e <- spread_examples this [ {| input := input; output := output |} ] ;;
   set_examples builder e) ;;
  (t <- spread_taskKeys this [] ;; set_taskKeys builder t) ;;
  ret builder.

(** [taskKey], lines 73-79. *)
Definition taskKey (this : loc) (key : string) : M loc :=
  builder <- new_PromptBuilder ;;
  (i <- get_instruction this ;; set_instruction builder i) ;;
  (e <- spread_examples this [] ;; set_examples builder e) ;;
  (t <- spread_taskKeys this [key] ;; set_taskKeys builder t) ;;
  ret builder.

(** The callback of [map] at lines 108-113. *)
Definition example_element (example : Example) (index : nat) : string :=
  str1 newline +:+ "<example index=" +:+ str1 quot
  +:+ ToString (Num (Z.of_nat index)) +:+ str1 quot +:+ "><input>"
  +:+ objectToXml (input example) None
  +:+ "</input><output>" +:+ stringified (output example)
  +:+ "</output></example>".

(** The callback of [reduce] at lines 119-124, on the accumulator [acc]. *)
Definition collect_key (values acc : loc) (key : string) : M unit :=
  bag <- read_plain values ;;
  if has_property bag key then
    o <- read_plain acc ;;
    assign acc (Plain (set_property o key (get_property bag key)))
  else ret tt.

Fixpoint for_each {A} (f : A -> M unit) (l : list A) : M unit :=
  match l with
  | [] => ret tt
  | x :: r => f x ;; for_each f r
  end.

(** [build], lines 87-131: the function it returns, applied to [values]. *)
Definition build (this : loc) : loc -> M string := fun values =>
  template <- get_instruction this ;;
  bag <- read_plain values ;;
  let interpolatedPrompt := replaceTemplateVariables template bag in
  let result := "<instructions>" +:+ interpolatedPrompt +:+ "</instructions>" in
  examples <- (a <- get_examples this ;; read_examples a) ;;
  let result :=
    if 0 <? length examples then
      result +:+ str1 newline +:+ str1 newline +:+ "<examples>"
      +:+ join (imap (fun index example => example_element example index) examples)
      +:+ str1 newline +:+ "</examples>"
    else result in
  taskKeys <- (a <- get_taskKeys this ;; read_keys a) ;;
  if 0 <? length taskKeys then
    acc <- alloc (Plain []) ;;
    for_each (collect_key values acc) taskKeys ;;
    taskObject <- read_plain acc ;;
    let taskXml := objectToXml (Obj taskObject) None in
    ret (result +:+ str1 newline +:+ str1 newline
         +:+ "<task>" +:+ taskXml +:+ "</task>")
  else ret result.

(** [promptBuilder], lines 148-150. *)
Definition promptBuilder : M loc := new_PromptBuilder.

(** ** Reading the store

    The configuration a builder stands for, what a computation achieves,
    and the accumulator of the [reduce] freed from the store. *)

(** The configuration a builder stands for: its instruction template, its
    examples and its task keys. *)
Record config := {
  cfg_instruction : string;
  cfg_examples : list Example;
  cfg_taskKeys : list string
}.

Definition config_at (σ : store) (b : loc) : option config :=
  match σ !! b with
  | Some (Builder i e t) =>
      match σ !! e, σ !! t with
      | Some (Examples es), Some (Keys ks) =>
          Some {| cfg_instruction := i; cfg_examples := es; cfg_taskKeys := ks |}
      | _, _ => None
      end
  | _ => None
  end.

(** [m] runs from [σ] to a result and a store that satisfy [Q]. *)
Definition wp {A} (m : M A) (σ : store) (Q : A -> store -> Prop) : Prop :=
  exists a σ', m σ = Some (a, σ') /\ Q a σ'.

(** What a method called on [this] in the store [σ] leaves behind: the
    builder [b] it returns is a new object, every object of [σ] is still
    there unchanged, so that [this] stands for the configuration it stood
    for, and [b] stands for the configuration [cfg]. *)
Definition returns_new (σ : store) (this : loc) (cfg : config)
    (b : loc) (σ' : store) : Prop :=
  σ !! b = None
  /\ σ ⊆ σ'
  /\ config_at σ' this = config_at σ this
  /\ config_at σ' b = Some cfg.

(** The accumulator of the [reduce] at lines 119-124, as a fold over the
    task keys. *)
Definition taskObject (taskKeys : list string) (values : props) : props :=
  fold_left
    (fun acc key =>
       if has_property values key
       then set_property acc key (get_property values key)
       else acc)
    taskKeys [].

(** A store that holds a builder for [cfg] at location 1, its arrays at 2
    and 3, and the value bag [bag] at location 4. *)
Definition store_of (cfg : config) (bag : props) : store :=
  {[ 1%positive := Builder (cfg_instruction cfg) 2%positive 3%positive;
     2%positive := Examples (cfg_examples cfg);
     3%positive := Keys (cfg_taskKeys cfg);
     4%positive := Plain bag ]}.

(** The text a run of the prompt function returns, if it returns. *)
Definition output_of (cfg : config) (bag : props) : option string :=
  fst <$> build 1%positive 4%positive (store_of cfg bag).

(** * Specification-side definitions

    The statements below compare the functions above with definitions
    written from the wording of the specification. *)

(** The table of the Escaper: five characters have an entity, any other
    character stands for itself. *)
Definition escape_char (c : ascii) : string :=
  if Ascii.eqb c "&" then "&amp;"
  else if Ascii.eqb c "<" then "&lt;"
  else if Ascii.eqb c ">" then "&gt;"
  else if Ascii.eqb c quot then "&quot;"
  else if Ascii.eqb c "'" then "&apos;"
  else str1 c.

(** Every character replaced by its entry of the table, once. *)
Fixpoint escape_each (s : string) : string :=
  match s with
  | EmptyString => EmptyString
  | String c r => escape_char c +:+ escape_each r
  end.

Definition reserved (c : ascii) : bool :=
  Ascii.eqb c "&" || Ascii.eqb c "<" || Ascii.eqb c ">"
  || Ascii.eqb c quot || Ascii.eqb c "'".

Fixpoint has_reserved (s : string) : bool :=
  match s with
  | EmptyString => false
  | String c r => reserved c || has_reserved r
  end.

(** The element [<f index="i">child</f>]. *)
Definition indexed_element (f : string) (i : nat) (child : string) : string :=
  "<" +:+ f +:+ " index=" +:+ str1 quot +:+ string_of_Z (Z.of_nat i)
  +:+ str1 quot +:+ ">" +:+ child +:+ "</" +:+ f +:+ ">".

(** The field elements of the record at position [i] of an array. *)
Definition indexed_fields (i : nat) (record : props) : string :=
  join (map (fun kv => indexed_element (fst kv) i (objectToXml (snd kv) None))
          record).

(** An identifier: one word character or more. *)
Fixpoint all_word (s : string) : bool :=
  match s with
  | EmptyString => true
  | String c r => is_word c && all_word r
  end.

Definition is_identifier (key : string) : bool :=
  negb (String.eqb key EmptyString) && all_word key.

(** The token [{{key}}]. *)
Definition placeholder (key : string) : string := "{{" +:+ key +:+ "}}".

Definition starts_with_placeholder (s : string) : Prop :=
  exists key rest, is_identifier key = true /\ s = placeholder key +:+ rest.

(** The three sections of the output grammar. *)
Definition instructions_section (cfg : config) (bag : props) : string :=
  "<instructions>" +:+ replaceTemplateVariables (cfg_instruction cfg) bag
  +:+ "</instructions>".

Fixpoint example_lines (i : nat) (examples : list Example) : string :=
  match examples with
  | [] => EmptyString
  | e :: r =>
      str1 newline +:+ "<example index=" +:+ str1 quot
      +:+ string_of_Z (Z.of_nat i) +:+ str1 quot +:+ "><input>"
      +:+ objectToXml (input e) None +:+ "</input><output>"
      +:+ stringified (output e) +:+ "</output></example>"
      +:+ example_lines (S i) r
  end.

Definition examples_section (examples : list Example) : string :=
  match examples with
  | [] => EmptyString
  | _ :: _ =>
      str1 newline +:+ str1 newline +:+ "<examples>"
      +:+ example_lines 0 examples +:+ str1 newline +:+ "</examples>"
  end.

Definition task_element (sub : props) : string :=
  str1 newline +:+ str1 newline +:+ "<task>"
  +:+ objectToXml (Obj sub) None +:+ "</task>".

Definition task_section (taskKeys : list string) (bag : props) : string :=
  match taskKeys with
  | [] => EmptyString
  | _ :: _ => task_element (taskObject taskKeys bag)
  end.

Definition prompt (cfg : config) (bag : props) : string :=
  instructions_section cfg bag
  +:+ examples_section (cfg_examples cfg)
  +:+ task_section (cfg_taskKeys cfg) bag.

(** The declared task keys without repetition, each at the place of its
    first declaration. *)
Fixpoint first_occurrences (keys : list string) : list string :=
  match keys with
  | [] => []
  | k :: r => k :: List.filter (fun k' => negb (String.eqb k' k)) (first_occurrences r)
  end.

(** The declared keys the bag holds as its own, in declared order. *)
Definition present_keys (taskKeys : list string) (bag : props) : list string :=
  List.filter (has_own bag) (first_occurrences taskKeys).

(** A key with the value the bag binds it to. *)
Definition bind_in (bag : props) (key : string) : string * value :=
  (key, get_property bag key).

(** The task sub-mapping as the specification words it: the declared keys
    that are present in the bag, in declared order. *)
Definition declared_present (taskKeys : list string) (bag : props) : props :=
  map (bind_in bag) (present_keys taskKeys bag).

Definition is_index (key : string) : bool :=
  match array_index key with Some _ => true | None => false end.

Definition not_index (key : string) : bool := negb (is_index key).

(** Two index keys in ascending numeric order. *)
Definition index_le (a b : string) : Prop :=
  match array_index a, array_index b with
  | Some i, Some j => (i <= j)%N
  | _, _ => False
  end.

(** The output with the task sub-mapping the specification describes. *)
Definition specified_prompt (cfg : config) (bag : props) : string :=
  instructions_section cfg bag
  +:+ examples_section (cfg_examples cfg)
  +:+ task_element (declared_present (cfg_taskKeys cfg) bag).

(** ** Further notions for the statements *)

(** The character [c] occurs in [s]. *)
Fixpoint contains (c : ascii) (s : string) : bool :=
  match s with
  | EmptyString => false
  | String a r => Ascii.eqb a c || contains c r
  end.

(** The token [{{key}}] occurs somewhere in [s]. *)
Definition occurs (key : string) (s : string) : Prop :=
  exists before rest, s = before +:+ placeholder key +:+ rest.

Definition is_object (v : value) : bool :=
  match v with Obj _ => true | _ => false end.

(** A value made of primitives and arrays alone. *)
Fixpoint object_free (v : value) : bool :=
  match v with
  | Obj _ | Native _ => false
  | Arr items => forallb object_free items
  | _ => true
  end.

(** Structural induction that reaches the members of arrays and objects. *)
Section value_induction.
Variable P : value -> Prop.
Hypothesis P_undefined : P Undefined.
Hypothesis P_null : P Null.
Hypothesis P_bool : forall b, P (Bool b).
Hypothesis P_num : forall z, P (Num z).
Hypothesis P_str : forall s, P (Str s).
Hypothesis P_arr : forall items, List.Forall P items -> P (Arr items).
Hypothesis P_obj :
  forall own, List.Forall (fun kv => P (snd kv)) own -> P (Obj own).
Hypothesis P_native : forall name, P (Native name).

Fixpoint value_ind' (v : value) : P v :=
  match v with
  | Undefined => P_undefined
  | Null => P_null
  | Bool b => P_bool b
  | Num z => P_num z
  | Str s => P_str s
  | Arr items =>
      P_arr items
        ((fix all (l : list value) : List.Forall P l :=
            match l with
            | [] => @List.Forall_nil _ P
            | x :: r => @List.Forall_cons _ P x r (value_ind' x) (all r)
            end) items)
  | Obj own =>
      P_obj own
        ((fix all (l : props) : List.Forall (fun kv => P (snd kv)) l :=
            match l with
            | [] => @List.Forall_nil _ _
            | kv :: r => @List.Forall_cons _ _ kv r (value_ind' (snd kv)) (all r)
            end) own)
  | Native name => P_native name
  end.
End value_induction.

(** A method call on a builder, and a chain of calls, each made on the
    builder the previous one returned. *)
Inductive call : Type :=
| CallInstruction (template : string)
| CallExample (input output : value)
| CallTaskKey (key : string).

Definition invoke (this : loc) (c : call) : M loc :=
  match c with
  | CallInstruction template => instruction this template
  | CallExample input output => example this input output
  | CallTaskKey key => taskKey this key
  end.

Fixpoint chain (this : loc) (calls : list call) : M loc :=
  match calls with
  | [] => ret this
  | c :: r => b <- invoke this c ;; chain b r
  end.

(** What a call makes of a configuration. *)
Definition configure (cfg : config) (c : call) : config :=
  match c with
  | CallInstruction template =>
      {| cfg_instruction := template;
         cfg_examples := cfg_examples cfg;
         cfg_taskKeys := cfg_taskKeys cfg |}
  | CallExample input output =>
      {| cfg_instruction := cfg_instruction cfg;
         cfg_examples :=
           cfg_examples cfg ++ [ {| input := input; output := output |} ];
         cfg_taskKeys := cfg_taskKeys cfg |}
  | CallTaskKey key =>
      {| cfg_instruction := cfg_instruction cfg;
         cfg_examples := cfg_examples cfg;
         cfg_taskKeys := cfg_taskKeys cfg ++ [key] |}
  end.

(** The configuration of [new PromptBuilder()]. *)
Definition cfg_initial : config :=
  {| cfg_instruction := EmptyString; cfg_examples := []; cfg_taskKeys := [] |}.

(** What a chain of calls amounts to: the template of its last
    [instruction], its examples and its task keys in the order of the
    calls. *)
Definition last_instruction (calls : list call) (template : string) : string :=
  fold_left
    (fun t c => match c with CallInstruction t' => t' | _ => t end)
    calls template.

Definition examples_of (calls : list call) : list Example :=
  List.flat_map
    (fun c => match c with
              | CallExample input output =>
                  [ {| input := input; output := output |} ]
              | _ => []
              end) calls.

Definition keys_of (calls : list call) : list string :=
  List.flat_map
    (fun c => match c with CallTaskKey key => [key] | _ => [] end) calls.

Definition configuration_after (cfg : config) (calls : list call) : config :=
  {| cfg_instruction := last_instruction calls (cfg_instruction cfg);
     cfg_examples := cfg_examples cfg ++ examples_of calls;
     cfg_taskKeys := cfg_taskKeys cfg ++ keys_of calls |}.

(** A computation run from the empty store, for its result alone. *)
Definition run {A} (m : M A) : option A := fst <$> m ∅.

(** ** Sample inputs

    The scenarios of the test suite, and the inputs on which the code and
    the specification part. *)

Definition cfg_sample : config :=
  {| cfg_instruction := "Translate {{text}} to {{language}}";
     cfg_examples :=
       [ {| input := Obj [("question"%string, Str "What is 2+2?")];
            output := Obj [("answer"%string, Num 4)] |} ];
     cfg_taskKeys := ["userId"; "action"; "timestamp"]%string |}.

Definition bag_sample : props :=
  [ ("text"%string, Str "Hello"); ("language"%string, Str "Spanish");
    ("action"%string, Str "login"); ("userId"%string, Num 123) ].

(** Task keys [b] and [0], in this order; the bag [{ b: 2, 0: 1 }], whose
    own keys JavaScript enumerates as [0], [b]. *)
Definition cfg_order : config :=
  {| cfg_instruction := "Go";
     cfg_examples := [];
     cfg_taskKeys := ["b"; "0"]%string |}.

Definition bag_order : props := [ ("0"%string, Num 1); ("b"%string, Num 2) ].

(** The task key [toString] and the empty bag. *)
Definition cfg_inherited : config :=
  {| cfg_instruction := "Go";
     cfg_examples := [];
     cfg_taskKeys := ["toString"]%string |}.

(** * Theorems *)

(** ** Strings *)

Lemma append_nil_r (s : string) : s +:+ EmptyString = s.
Proof. induction s as [|c s IH]; simpl; [reflexivity | now rewrite IH]. Qed.

Lemma append_assoc (a b c : string) : (a +:+ b) +:+ c = a +:+ (b +:+ c).
Proof. induction a as [|x a IH]; simpl; [reflexivity | now rewrite IH]. Qed.

Lemma length_append (a b : string) :
  String.length (a +:+ b) = String.length a + String.length b.
Proof. induction a as [|x a IH]; simpl; [reflexivity | now rewrite IH]. Qed.

(** Concatenations are compared after association to the right. *)
Ltac assoc_right :=
  repeat (progress (rewrite ?append_assoc; simpl)); try reflexivity.

Lemma join_cons (a : string) (l : list string) : join (a :: l) = a +:+ join l.
Proof.
  unfold join. destruct l as [|b l]; simpl; [symmetry; apply append_nil_r | reflexivity].
Qed.

(** ** [escapeXml] *)

Lemma escapeXml_cons (c : ascii) (s : string) :
  escapeXml (String c s) = escape_char c +:+ escapeXml s.
Proof.
  unfold escapeXml, escape_char.
  destruct (Ascii.eqb_spec c "&") as [->|Hamp]; [reflexivity |].
  destruct (Ascii.eqb_spec c "<") as [->|Hlt]; [reflexivity |].
  destruct (Ascii.eqb_spec c ">") as [->|Hgt]; [reflexivity |].
  destruct (Ascii.eqb_spec c quot) as [->|Hquot]; [reflexivity |].
  destruct (Ascii.eqb_spec c "'") as [->|Hapos]; [reflexivity |].
  simpl.
  repeat match goal with
         | H : c <> ?d |- context [Ascii.eqb c ?d] =>
             rewrite (proj2 (Ascii.eqb_neq c d) H); simpl
         end.
  reflexivity.
Qed.

Lemma escapeXml_escape_each (s : string) : escapeXml s = escape_each s.
Proof.
  induction s as [|c s IH]; [reflexivity |].
  rewrite escapeXml_cons, IH. reflexivity.
Qed.

(** C4.  The Escaper replaces every occurrence of the five characters
    [&], [<], [>], the double quote and the apostrophe by [&amp;], [&lt;],
    [&gt;], [&quot;] and [&apos;], and copies every other character: the
    five passes of [escapeXml], the ampersand first, amount to replacing
    each character of the input once by its entry in the table, so that
    no ampersand of an entity is escaped again. *)
Theorem escapeXml_charwise (s : string) :
  escapeXml s = escape_each s
  /\ forall c r, escapeXml (String c r) = escape_char c +:+ escapeXml r.
Proof. split; [apply escapeXml_escape_each | apply escapeXml_cons]. Qed.

Lemma length_escape_char (c : ascii) :
  (if reserved c then 4 else 1) <= String.length (escape_char c).
Proof.
  unfold escape_char, reserved.
  do 5 (destruct (Ascii.eqb c _); [simpl; lia |]). simpl; lia.
Qed.

Lemma length_escape_each (s : string) :
  String.length s <= String.length (escape_each s)
  /\ (has_reserved s = true -> String.length s < String.length (escape_each s)).
Proof.
  induction s as [|c s [IHle IHlt]]; simpl; [split; [lia | discriminate] |].
  rewrite length_append.
  pose proof (length_escape_char c) as Hc.
  destruct (reserved c); simpl; split; intros; try lia.
  specialize (IHlt ltac:(assumption)). lia.
Qed.

Lemma has_reserved_append (a b : string) :
  has_reserved (a +:+ b) = has_reserved a || has_reserved b.
Proof.
  induction a as [|x a IH]; simpl; [reflexivity |].
  rewrite IH. now rewrite orb_assoc.
Qed.

Lemma has_reserved_escape_each (s : string) :
  has_reserved s = true -> has_reserved (escape_each s) = true.
Proof.
  induction s as [|c s IH]; simpl; [discriminate |].
  rewrite has_reserved_append. intros H.
  apply orb_true_iff in H as [H | H].
  - apply orb_true_iff. left. revert H. unfold reserved, escape_char.
    do 5 (destruct (Ascii.eqb c _); [reflexivity |]). discriminate.
  - apply orb_true_iff. right. auto.
Qed.

(** C8.  The Escaper is not idempotent: on every string that holds one of
    the five reserved characters (such as [&amp;], whose escaped form is
    [&amp;amp;]), escaping the escaped text again gives a different
    text. *)
Theorem escapeXml_not_idempotent (s : string) :
  has_reserved s = true -> escapeXml (escapeXml s) <> escapeXml s.
Proof.
  intros Hres Heq. rewrite !escapeXml_escape_each in Heq.
  apply has_reserved_escape_each in Hres.
  apply (proj2 (length_escape_each (escape_each s))) in Hres.
  rewrite Heq in Hres. lia.
Qed.

Lemma escapeXml_not_idempotent_witness :
  escapeXml "&amp;" = "&amp;amp;"%string
  /\ escapeXml (escapeXml "&amp;") <> escapeXml "&amp;".
Proof.
  split; [reflexivity |].
  apply (escapeXml_not_idempotent "&amp;"). reflexivity.
Defined.

(** ** [objectToXml] *)

(** C6.  Called without positional metadata on a primitive, the
    serializer answers the escaped text of a string, the decimal text of a
    number and [true] or [false] for a boolean; on [null] and on
    [undefined] it answers the empty string. *)
Theorem objectToXml_primitive :
  (forall s, objectToXml (Str s) None = escapeXml s)
  /\ (forall z, objectToXml (Num z) None = string_of_Z z)
  /\ objectToXml (Bool true) None = "true"%string
  /\ objectToXml (Bool false) None = "false"%string
  /\ objectToXml Null None = EmptyString
  /\ objectToXml Undefined None = EmptyString.
Proof. repeat split. Qed.

Lemma objectToXml_Arr (items : list value) (metadata : option props) :
  objectToXml (Arr items) metadata
  = join (imap (fun index item =>
                  objectToXml item (Some [("index"%string, Num (Z.of_nat index))]))
            items).
Proof.
  simpl. f_equal.
  assert (forall n (f : nat -> value -> string),
            (forall i x, f i x
                         = objectToXml x (Some [("index"%string, Num (Z.of_nat (n + i)))])) ->
            (fix each (index : nat) (l : list value) {struct l} : list string :=
               match l with
               | [] => []
               | item :: r =>
                   objectToXml item (Some [("index"%string, Num (Z.of_nat index))])
                   :: each (S index) r
               end) n items = imap f items) as Hgen.
  { induction items as [|x items IH]; intros n f Hf; [reflexivity |].
    simpl. rewrite Hf, Nat.add_0_r. f_equal.
    apply IH. intros i y. simpl. rewrite Hf. do 5 f_equal. lia. }
  apply (Hgen O). intros i x. reflexivity.
Qed.

Lemma objectToXml_Obj (own : props) (metadata : option props) :
  objectToXml (Obj own) metadata
  = join (map (fun kv =>
                 "<" +:+ fst kv +:+ index_attribute metadata +:+ ">"
                 +:+ objectToXml (snd kv) None +:+ "</" +:+ fst kv +:+ ">")
            own).
Proof.
  simpl. f_equal.
  induction own as [|[k v] own IH]; [reflexivity |].
  simpl. f_equal. exact IH.
Qed.

Lemma index_attribute_position (i : nat) :
  index_attribute (Some [("index"%string, Num (Z.of_nat i))])
  = " index=" +:+ str1 quot +:+ string_of_Z (Z.of_nat i) +:+ str1 quot.
Proof. reflexivity. Qed.

Lemma objectToXml_record_at (i : nat) (record : props) :
  objectToXml (Obj record) (Some [("index"%string, Num (Z.of_nat i))])
  = indexed_fields i record.
Proof.
  rewrite objectToXml_Obj, index_attribute_position.
  unfold indexed_fields, indexed_element. f_equal.
  apply map_ext. intros [k v]. simpl. now rewrite !append_assoc.
Qed.

(** C3.  On an array of plain mappings the serializer writes, for the
    mapping at position [i], one element [<key index="i">child</key>] per
    field and nothing around them, whatever metadata the array itself
    received; [child] is the serializer applied to the field value
    without metadata.  In particular an array of [k] mappings that each
    consist of the field [f] yields the [k] elements [<f index="i">...</f>],
    [i = 0 .. k-1], in order. *)
Theorem objectToXml_array_of_records
    (records : list props) (f : string) (children : list value)
    (metadata : option props) :
  objectToXml (Arr (map Obj records)) metadata
  = join (imap indexed_fields records)
  /\ objectToXml (Arr (map (fun child => Obj [(f, child)]) children)) metadata
     = join (imap (fun i child => indexed_element f i (objectToXml child None))
               children).
Proof.
  assert (forall rs, objectToXml (Arr (map Obj rs)) metadata
                     = join (imap indexed_fields rs)) as Hrecords.
  { intros rs. rewrite objectToXml_Arr. f_equal.
    change (map Obj rs) with (Obj <$> rs). rewrite imap_fmap.
    apply imap_ext. intros i r _. simpl. apply objectToXml_record_at. }
  split; [apply Hrecords |].
  replace (map (fun child => Obj [(f, child)]) children)
    with (map Obj (map (fun child => [(f, child)]) children))
    by (rewrite map_map; reflexivity).
  rewrite Hrecords. f_equal.
  change (map (fun child => [(f, child)]) children)
    with ((fun child => [(f, child)]) <$> children).
  rewrite imap_fmap. apply imap_ext. intros i child _.
  unfold indexed_fields. simpl. reflexivity.
Qed.

(** ** [replaceTemplateVariables] *)

Lemma word_prefix_split (s w rest : string) :
  word_prefix s = (w, rest) -> s = w +:+ rest /\ all_word w = true.
Proof.
  revert w rest. induction s as [|c s IH]; simpl; intros w rest H.
  - injection H as <- <-. split; reflexivity.
  - destruct (is_word c) eqn:Hc.
    + destruct (word_prefix s) as [w' rest'] eqn:Hs.
      injection H as <- <-. destruct (IH _ _ eq_refl) as [-> Hw].
      split; [reflexivity | simpl; now rewrite Hc, Hw].
    + injection H as <- <-. split; reflexivity.
Qed.

Lemma word_prefix_identifier (key rest : string) :
  all_word key = true ->
  word_prefix (key +:+ String "}" rest) = (key, String "}" rest).
Proof.
  induction key as [|c key IH]; simpl; intros H; [reflexivity |].
  apply andb_true_iff in H as [Hc Hkey]. rewrite Hc, (IH Hkey). reflexivity.
Qed.

Lemma match_placeholder_sound (s key rest : string) :
  match_placeholder s = Some (key, rest) ->
  is_identifier key = true /\ s = placeholder key +:+ rest.
Proof.
  unfold match_placeholder.
  destruct s as [|a [|b r]]; try discriminate.
  destruct (Ascii.eqb_spec a "{") as [->|]; [| discriminate].
  destruct (Ascii.eqb_spec b "{") as [->|]; [| discriminate]. simpl.
  destruct (word_prefix r) as [w rest'] eqn:Hw.
  apply word_prefix_split in Hw as [-> Hw].
  destruct w as [|k ks]; [discriminate |].
  destruct rest' as [|c [|d rest']]; try discriminate.
  destruct (Ascii.eqb_spec c "}") as [->|]; [| discriminate].
  destruct (Ascii.eqb_spec d "}") as [->|]; [| discriminate]. simpl.
  intros H. injection H as <- <-. split.
  - unfold is_identifier. now rewrite Hw.
  - unfold placeholder. simpl. now rewrite !append_assoc.
Qed.

Lemma match_placeholder_complete (key rest : string) :
  is_identifier key = true ->
  match_placeholder (placeholder key +:+ rest) = Some (key, rest).
Proof.
  unfold is_identifier. intros H. apply andb_true_iff in H as [Hne Hw].
  unfold placeholder, match_placeholder. simpl.
  rewrite append_assoc. simpl.
  rewrite (word_prefix_identifier key (String "}" rest) Hw).
  destruct key; [discriminate | reflexivity].
Qed.

Lemma match_placeholder_shorter (s key rest : string) :
  match_placeholder s = Some (key, rest) -> String.length rest < String.length s.
Proof.
  intros H. apply match_placeholder_sound in H as [_ ->].
  unfold placeholder. rewrite !length_append. simpl. lia.
Qed.

Lemma replace_placeholders_fuel replacer (n m : nat) (s : string) :
  String.length s <= n -> String.length s <= m ->
  replace_placeholders n replacer s = replace_placeholders m replacer s.
Proof.
  revert m s. induction n as [|n IH]; intros m s Hn Hm.
  - destruct s; [| simpl in Hn; lia]. destruct m; reflexivity.
  - destruct m as [|m].
    + destruct s; [reflexivity | simpl in Hm; lia].
    + simpl. destruct (match_placeholder s) as [[key rest]|] eqn:Hmatch.
      * apply match_placeholder_shorter in Hmatch.
        f_equal. apply IH; lia.
      * destruct s as [|c r]; [reflexivity |]. simpl in Hn, Hm.
        f_equal. apply IH; lia.
Qed.

Lemma replaceTemplateVariables_empty (values : props) :
  replaceTemplateVariables EmptyString values = EmptyString.
Proof. reflexivity. Qed.

(** A placeholder at the head of the template is handed to the replacer
    and the scan goes on behind it. *)
Lemma replaceTemplateVariables_placeholder (key rest : string) (values : props) :
  is_identifier key = true ->
  replaceTemplateVariables (placeholder key +:+ rest) values
  = (if has_property values key then stringified (get_property values key)
     else placeholder key)
    +:+ replaceTemplateVariables rest values.
Proof.
  intros Hkey. unfold replaceTemplateVariables.
  pose proof (match_placeholder_complete key rest Hkey) as Hmatch.
  pose proof (match_placeholder_shorter _ _ _ Hmatch) as Hlen.
  destruct (String.length (placeholder key +:+ rest)) as [|n] eqn:Hn; [lia |].
  cbn [replace_placeholders]. rewrite Hmatch. f_equal.
  apply replace_placeholders_fuel; lia.
Qed.

(** A character that starts no placeholder is copied. *)
Lemma replaceTemplateVariables_other (c : ascii) (r : string) (values : props) :
  ~ starts_with_placeholder (String c r) ->
  replaceTemplateVariables (String c r) values
  = String c (replaceTemplateVariables r values).
Proof.
  intros Hno. unfold replaceTemplateVariables. simpl String.length.
  cbn [replace_placeholders].
  destruct (match_placeholder (String c r)) as [[key rest]|] eqn:Hmatch.
  - exfalso. apply Hno. exists key, rest. now apply match_placeholder_sound.
  - reflexivity.
Qed.

Lemma replaceTemplateVariables_other_witness :
  replaceTemplateVariables "{a}}" bag_sample
  = String "{" (replaceTemplateVariables "a}}" bag_sample).
Proof.
  apply (replaceTemplateVariables_other "{" "a}}" bag_sample).
  intros (key & rest & _ & H). unfold placeholder in H. simpl in H.
  discriminate H.
Defined.

(** A placeholder whose identifier is an own key of the bag is replaced by
    the JSON text of the bound value; one whose identifier the bag lacks,
    and [Object.prototype] lacks too, is left as it stands. *)
Lemma replaceTemplateVariables_plain_key (key rest : string) (values : props) :
  is_identifier key = true ->
  inherited key = false ->
  replaceTemplateVariables (placeholder key +:+ rest) values
  = match own_property values key with
    | Some v => stringified v
    | None => placeholder key
    end
    +:+ replaceTemplateVariables rest values.
Proof.
  intros Hkey Hplain.
  rewrite (replaceTemplateVariables_placeholder key rest values Hkey).
  unfold has_property, has_own, get_property. rewrite Hplain, orb_false_r.
  now destruct (own_property values key).
Qed.

Lemma replaceTemplateVariables_plain_key_witness :
  replaceTemplateVariables (placeholder "text" +:+ " to {{language}}") bag_sample
  = match own_property bag_sample "text" with
    | Some v => stringified v
    | None => placeholder "text"
    end
    +:+ replaceTemplateVariables " to {{language}}" bag_sample.
Proof.
  apply (replaceTemplateVariables_plain_key "text" " to {{language}}" bag_sample);
    reflexivity.
Defined.

(** C2.  The interpolator tests a key with the [in] operator, which also
    finds the names a plain object inherits from [Object.prototype]: the
    placeholder [{{toString}}] is not left unchanged by the empty bag, it
    becomes the text [undefined] (the native function has no JSON text),
    whereas [{{name}}] is left as it stands. *)
Theorem replaceTemplateVariables_inherited_name :
  replaceTemplateVariables "{{toString}}" [] = "undefined"%string
  /\ replaceTemplateVariables "{{name}}" [] = "{{name}}"%string.
Proof. split; reflexivity. Qed.

(** ** The store *)

Lemma wp_ret {A} (a : A) σ (Q : A -> store -> Prop) : Q a σ -> wp (ret a) σ Q.
Proof. intros H. exists a, σ. split; [reflexivity | exact H]. Qed.

Lemma wp_bind {A B} (m : M A) (k : A -> M B) σ (Q : B -> store -> Prop) :
  wp m σ (fun a σ' => wp (k a) σ' Q) -> wp (bind m k) σ Q.
Proof.
  intros (a & σ' & Hm & b & σ'' & Hk & HQ).
  exists b, σ''. split; [| exact HQ]. unfold bind. now rewrite Hm.
Qed.

Lemma wp_mono {A} (m : M A) σ (Q Q' : A -> store -> Prop) :
  wp m σ Q -> (forall a σ', Q a σ' -> Q' a σ') -> wp m σ Q'.
Proof. intros (a & σ' & Hm & HQ) H. exists a, σ'. auto. Qed.

Lemma wp_alloc (o : object) σ (Q : loc -> store -> Prop) :
  (forall l, σ !! l = None -> Q l (<[l := o]> σ)) -> wp (alloc o) σ Q.
Proof.
  intros H. exists (fresh (dom σ)), (<[fresh (dom σ) := o]> σ).
  split; [reflexivity |]. apply H.
  apply not_elem_of_dom. apply is_fresh.
Qed.

Lemma wp_load (l : loc) (o : object) σ (Q : object -> store -> Prop) :
  σ !! l = Some o -> Q o σ -> wp (load l) σ Q.
Proof. intros Hl H. exists o, σ. unfold load. now rewrite Hl. Qed.

Lemma wp_assign (l : loc) (o o' : object) σ (Q : unit -> store -> Prop) :
  σ !! l = Some o' -> Q tt (<[l := o]> σ) -> wp (assign l o) σ Q.
Proof. intros Hl H. exists tt, (<[l := o]> σ). unfold assign. now rewrite Hl. Qed.

(** Symbolic execution of a computation: one rule per primitive, the
    lookups in the store settled by the freshness of allocated locations. *)
Ltac flatten_fresh H :=
  repeat (apply lookup_insert_None in H; destruct H as [H ?]).

Ltac lookup :=
  repeat first [ rewrite lookup_insert_eq
               | rewrite lookup_insert_ne by congruence ];
  first [ eassumption | reflexivity ].

Ltac wp_step :=
  lazymatch goal with
  | |- wp (bind _ _) _ _ => apply wp_bind
  | |- wp (ret _) _ _ => apply wp_ret
  | |- wp (alloc _) _ _ =>
      let l := fresh "l" in
      let H := fresh "Hfresh" in
      apply wp_alloc; intros l H; flatten_fresh H
  | |- wp (load _) _ _ => eapply wp_load; [lookup | cbn beta iota]
  | |- wp (assign _ _) _ _ => eapply wp_assign; [lookup |]
  end.

Ltac extends := repeat (apply insert_subseteq_r; [assumption |]); reflexivity.

Ltac unfold_accessors :=
  unfold new_PromptBuilder, spread_examples, spread_taskKeys;
  unfold get_instruction, get_examples, get_taskKeys, set_instruction,
    set_examples, set_taskKeys, read_examples, read_keys, read_plain.

(** The fields of a builder, read off [config_at]. *)
Lemma config_at_inv σ (b : loc) (cfg : config) :
  config_at σ b = Some cfg ->
  exists e t,
    σ !! b = Some (Builder (cfg_instruction cfg) e t)
    /\ σ !! e = Some (Examples (cfg_examples cfg))
    /\ σ !! t = Some (Keys (cfg_taskKeys cfg)).
Proof.
  unfold config_at. intros H.
  destruct (σ !! b) as [[i e t| | |]|] eqn:Hb; try discriminate.
  destruct (σ !! e) as [[|es| |]|] eqn:He; try discriminate.
  destruct (σ !! t) as [[| |ks|]|] eqn:Ht; try discriminate.
  injection H as <-. exists e, t. auto.
Qed.

Lemma config_at_weaken σ σ' (b : loc) (cfg : config) :
  σ ⊆ σ' -> config_at σ b = Some cfg -> config_at σ' b = Some cfg.
Proof.
  intros Hsub H. apply config_at_inv in H as (e & t & Hb & He & Ht).
  unfold config_at.
  rewrite (lookup_weaken _ _ _ _ Hb Hsub), (lookup_weaken _ _ _ _ He Hsub),
    (lookup_weaken _ _ _ _ Ht Hsub).
  now destruct cfg.
Qed.

Ltac builder_method H :=
  pose proof H as Hreceiver;
  apply config_at_inv in H as (?e & ?t & ? & ? & ?);
  unfold_accessors; repeat wp_step;
  split; [assumption |]; split; [extends |];
  split; [rewrite Hreceiver; eapply config_at_weaken; [| exact Hreceiver]; extends |];
  unfold config_at;
  repeat first [ rewrite lookup_insert_eq
               | rewrite lookup_insert_ne by congruence ];
  rewrite ?app_nil_r; reflexivity.

(** ** The builder *)

(** C7.  Each of [instruction], [example] and [taskKey] returns a builder
    that is a new object and leaves every object of the store unchanged,
    the receiver and its two arrays among them; the new builder carries
    the given template with the receiver's examples and task keys, or the
    receiver's configuration with one example appended, or with one task
    key appended. *)
Theorem builder_methods_frame σ (this : loc) (cfg : config) :
  config_at σ this = Some cfg ->
  (forall template,
      wp (instruction this template) σ
        (returns_new σ this {| cfg_instruction := template;
                          cfg_examples := cfg_examples cfg;
                          cfg_taskKeys := cfg_taskKeys cfg |}))
  /\ (forall input output,
         wp (example this input output) σ
           (returns_new σ this {| cfg_instruction := cfg_instruction cfg;
                             cfg_examples :=
                               cfg_examples cfg
                               ++ [ {| input := input; output := output |} ];
                             cfg_taskKeys := cfg_taskKeys cfg |}))
  /\ (forall key,
         wp (taskKey this key) σ
           (returns_new σ this {| cfg_instruction := cfg_instruction cfg;
                             cfg_examples := cfg_examples cfg;
                             cfg_taskKeys := cfg_taskKeys cfg ++ [key] |})).
Proof.
  intros H. split; [| split]; intros.
  - unfold instruction, returns_new. builder_method H.
  - unfold example, returns_new. builder_method H.
  - unfold taskKey, returns_new. builder_method H.
Qed.

Lemma builder_methods_frame_witness :
  (forall template,
      wp (instruction 1%positive template) (store_of cfg_sample bag_sample)
        (returns_new (store_of cfg_sample bag_sample) 1%positive
           {| cfg_instruction := template;
              cfg_examples := cfg_examples cfg_sample;
              cfg_taskKeys := cfg_taskKeys cfg_sample |}))
  /\ (forall input output,
         wp (example 1%positive input output) (store_of cfg_sample bag_sample)
           (returns_new (store_of cfg_sample bag_sample) 1%positive
              {| cfg_instruction := cfg_instruction cfg_sample;
                 cfg_examples :=
                   cfg_examples cfg_sample
                   ++ [ {| input := input; output := output |} ];
                 cfg_taskKeys := cfg_taskKeys cfg_sample |}))
  /\ (forall key,
         wp (taskKey 1%positive key) (store_of cfg_sample bag_sample)
           (returns_new (store_of cfg_sample bag_sample) 1%positive
              {| cfg_instruction := cfg_instruction cfg_sample;
                 cfg_examples := cfg_examples cfg_sample;
                 cfg_taskKeys := cfg_taskKeys cfg_sample ++ [key] |})).
Proof.
  apply (builder_methods_frame (store_of cfg_sample bag_sample) 1%positive cfg_sample).
  reflexivity.
Defined.

(** ** The prompt function *)

Lemma join_example_elements (n : nat) (examples : list Example) (f : nat -> Example -> string) :
  (forall i e, f i e = example_element e (n + i)) ->
  join (imap f examples) = example_lines n examples.
Proof.
  revert n f. induction examples as [|e r IH]; intros n f Hf; [reflexivity |].
  simpl imap. rewrite join_cons, Hf, Nat.add_0_r.
  rewrite (IH (S n)).
  - unfold example_element. assoc_right.
  - intros i e'. simpl. rewrite Hf. f_equal. lia.
Qed.

(** The [reduce] leaves the fold of its callback in the accumulator and
    touches no other object. *)
Lemma wp_for_each_collect σ (values acc : loc) (bag o : props) (keys : list string) :
  σ !! values = Some (Plain bag) ->
  σ !! acc = Some (Plain o) ->
  values <> acc ->
  wp (for_each (collect_key values acc) keys) σ
    (fun _ σ' =>
       σ' = <[acc := Plain (fold_left
                              (fun acc key =>
                                 if has_property bag key
                                 then set_property acc key (get_property bag key)
                                 else acc) keys o)]> σ).
Proof.
  revert σ o. induction keys as [|key keys IH]; intros σ o Hvalues Hacc Hne.
  - simpl. apply wp_ret. symmetry. now apply insert_id.
  - simpl for_each. simpl fold_left. apply wp_bind.
    unfold collect_key at 1, read_plain.
    apply wp_bind, wp_bind. eapply wp_load; [exact Hvalues |].
    cbn beta iota. apply wp_ret.
    destruct (has_property bag key).
    + repeat wp_step.
      eapply wp_mono.
      * apply IH; [| | exact Hne].
        -- rewrite lookup_insert_ne by congruence. exact Hvalues.
        -- apply lookup_insert_eq.
      * intros _ σ' ->. cbn beta. now rewrite insert_insert_eq.
    + wp_step. apply IH; assumption.
Qed.

Lemma build_runs σ (this values : loc) (cfg : config) (bag : props) :
  config_at σ this = Some cfg ->
  σ !! values = Some (Plain bag) ->
  wp (build this values) σ (fun s σ' => s = prompt cfg bag /\ σ ⊆ σ').
Proof.
  intros Hcfg Hvalues.
  apply config_at_inv in Hcfg as (e & t & Hthis & He & Ht).
  unfold build. unfold_accessors. repeat wp_step.
  assert ((if 0 <? length (cfg_examples cfg)
           then
             ("<instructions>"
              +:+ replaceTemplateVariables (cfg_instruction cfg) bag
              +:+ "</instructions>")
             +:+ str1 newline +:+ str1 newline +:+ "<examples>"
             +:+ join (imap (fun index example => example_element example index)
                         (cfg_examples cfg))
             +:+ str1 newline +:+ "</examples>"
           else
             "<instructions>"
             +:+ replaceTemplateVariables (cfg_instruction cfg) bag
             +:+ "</instructions>")
          = instructions_section cfg bag +:+ examples_section (cfg_examples cfg))
    as ->.
  { unfold instructions_section, examples_section.
    rewrite (join_example_elements 0) by reflexivity.
    destruct (cfg_examples cfg); simpl; [now rewrite append_nil_r |].
    assoc_right. }
  unfold prompt, task_section, taskObject.
  destruct (cfg_taskKeys cfg) as [|key keys] eqn:Hkeys.
  - simpl. wp_step. split; [now rewrite append_nil_r | reflexivity].
  - cbn [length Nat.ltb Nat.leb]. do 3 wp_step.
    eapply wp_mono.
    + eapply (wp_for_each_collect _ values l bag []).
      * rewrite lookup_insert_ne by congruence. exact Hvalues.
      * apply lookup_insert_eq.
      * congruence.
    + intros _ σ' ->. cbn beta. repeat wp_step.
      split; [| extends].
      unfold task_element. assoc_right.
Qed.

(** C1.  Whatever the configuration and the value bag, the prompt
    function returns the instructions section, then the examples section
    when there is an example, then the task section when there is a task
    key, as [prompt] spells them out: [<instructions>], the interpolated
    template, [</instructions>]; two newlines, [<examples>], one line
    [<example index="i"><input>...</input><output>...</output></example>]
    per example with the serialized input and the JSON text of the output,
    a newline and [</examples>]; two newlines and [<task>...</task>]
    around the serialized task object.  A section that is left out
    contributes nothing. *)
Theorem build_prompt σ (this values : loc) (cfg : config) (bag : props) :
  config_at σ this = Some cfg ->
  σ !! values = Some (Plain bag) ->
  exists σ', build this values σ = Some (prompt cfg bag, σ').
Proof.
  intros Hcfg Hvalues.
  destruct (build_runs σ this values cfg bag Hcfg Hvalues)
    as (s & σ' & Hrun & -> & _).
  exists σ'. exact Hrun.
Qed.

Lemma build_prompt_witness :
  exists σ',
    build 1%positive 4%positive (store_of cfg_sample bag_sample)
    = Some (prompt cfg_sample bag_sample, σ').
Proof.
  apply (build_prompt (store_of cfg_sample bag_sample) 1%positive 4%positive
           cfg_sample bag_sample); reflexivity.
Defined.

(** C9.  The prompt function is pure: two runs for the same configuration
    on equal bags, in whatever stores, return the same text, and a run
    leaves every object of the store it started in unchanged, the bag
    among them. *)
Theorem build_pure σ1 σ2 (this1 this2 values1 values2 : loc)
    (cfg : config) (bag : props) :
  config_at σ1 this1 = Some cfg ->
  config_at σ2 this2 = Some cfg ->
  σ1 !! values1 = Some (Plain bag) ->
  σ2 !! values2 = Some (Plain bag) ->
  exists s σ1' σ2',
    build this1 values1 σ1 = Some (s, σ1')
    /\ build this2 values2 σ2 = Some (s, σ2')
    /\ σ1 ⊆ σ1' /\ σ2 ⊆ σ2'
    /\ σ1' !! values1 = Some (Plain bag)
    /\ σ2' !! values2 = Some (Plain bag).
Proof.
  intros Hcfg1 Hcfg2 Hv1 Hv2.
  destruct (build_runs σ1 this1 values1 cfg bag Hcfg1 Hv1)
    as (s1 & σ1' & Hrun1 & -> & Hsub1).
  destruct (build_runs σ2 this2 values2 cfg bag Hcfg2 Hv2)
    as (s2 & σ2' & Hrun2 & -> & Hsub2).
  exists (prompt cfg bag), σ1', σ2'.
  repeat split; try assumption.
  - exact (lookup_weaken _ _ _ _ Hv1 Hsub1).
  - exact (lookup_weaken _ _ _ _ Hv2 Hsub2).
Qed.

Lemma build_pure_witness :
  exists s σ1' σ2',
    build 1%positive 4%positive (store_of cfg_sample bag_sample) = Some (s, σ1')
    /\ build 1%positive 4%positive (store_of cfg_sample bag_sample) = Some (s, σ2')
    /\ store_of cfg_sample bag_sample ⊆ σ1'
    /\ store_of cfg_sample bag_sample ⊆ σ2'
    /\ σ1' !! 4%positive = Some (Plain bag_sample)
    /\ σ2' !! 4%positive = Some (Plain bag_sample).
Proof.
  apply (build_pure (store_of cfg_sample bag_sample) (store_of cfg_sample bag_sample)
           1%positive 1%positive 4%positive 4%positive cfg_sample bag_sample);
    reflexivity.
Defined.

(** ** The task object *)

Lemma own_property_bind_in (bag : props) (ks : list string) (k : string) :
  own_property (map (bind_in bag) ks) k
  = if bool_decide (k ∈ ks) then Some (get_property bag k) else None.
Proof.
  induction ks as [|a ks IH]; simpl; [reflexivity |].
  destruct (String.eqb_spec a k) as [->|Hne].
  - rewrite bool_decide_eq_true_2 by apply list_elem_of_here. reflexivity.
  - rewrite IH.
    rewrite (bool_decide_ext (k ∈ a :: ks) (k ∈ ks))
      by (rewrite elem_of_cons; intuition congruence).
    reflexivity.
Qed.

Lemma has_own_bind_in (bag : props) (ks : list string) (k : string) :
  has_own (map (bind_in bag) ks) k = bool_decide (k ∈ ks).
Proof.
  unfold has_own. rewrite own_property_bind_in. now destruct (bool_decide _).
Qed.

Lemma replace_own_bind_in (bag : props) (ks : list string) (k : string) :
  replace_own (map (bind_in bag) ks) k (get_property bag k) = map (bind_in bag) ks.
Proof.
  induction ks as [|a ks IH]; simpl; [reflexivity |].
  destruct (String.eqb_spec a k) as [->|Hne]; [reflexivity |].
  now rewrite IH.
Qed.

Lemma elem_of_first_occurrences (k : string) (l : list string) :
  k ∈ first_occurrences l <-> k ∈ l.
Proof.
  induction l as [|a l IH]; simpl; [reflexivity |].
  rewrite !elem_of_cons, list_elem_of_In, List.filter_In, <- list_elem_of_In, IH.
  destruct (String.eqb_spec k a) as [->|Hne]; simpl; intuition congruence.
Qed.

Lemma first_occurrences_snoc (l : list string) (k : string) :
  first_occurrences (l ++ [k])
  = first_occurrences l ++ (if bool_decide (k ∈ l) then [] else [k]).
Proof.
  induction l as [|a l IH]; simpl; [reflexivity |].
  rewrite IH, List.filter_app. f_equal. f_equal.
  destruct (String.eqb_spec k a) as [->|Hne].
  - rewrite (bool_decide_eq_true_2 (a ∈ a :: l)) by apply list_elem_of_here.
    destruct (bool_decide (a ∈ l)); simpl; [reflexivity |].
    now rewrite String.eqb_refl.
  - rewrite (bool_decide_ext (k ∈ a :: l) (k ∈ l))
      by (rewrite elem_of_cons; intuition congruence).
    destruct (bool_decide (k ∈ l)); simpl; [reflexivity |].
    now rewrite (proj2 (String.eqb_neq k a) Hne).
Qed.

Lemma present_keys_snoc (l : list string) (k : string) (bag : props) :
  present_keys (l ++ [k]) bag
  = present_keys l bag
    ++ (if bool_decide (k ∈ l) then [] else if has_own bag k then [k] else []).
Proof.
  unfold present_keys. rewrite first_occurrences_snoc, List.filter_app.
  f_equal. destruct (bool_decide (k ∈ l)); simpl; [reflexivity |].
  now destruct (has_own bag k).
Qed.

Lemma elem_of_present_keys (k : string) (l : list string) (bag : props) :
  k ∈ present_keys l bag <-> k ∈ l /\ has_own bag k = true.
Proof.
  unfold present_keys.
  rewrite list_elem_of_In, List.filter_In, <- list_elem_of_In.
  now rewrite elem_of_first_occurrences.
Qed.

Lemma index_le_trans (a b c : string) : index_le a b -> index_le b c -> index_le a c.
Proof.
  unfold index_le.
  destruct (array_index a), (array_index b), (array_index c); try tauto. lia.
Qed.

(** A new index key lands among the index keys, at its numeric place. *)
Lemma insert_index_sorted (bag : props) (k : string) (i : N)
    (idx others : list string) :
  array_index k = Some i ->
  Forall (fun a => is_index a = true) idx ->
  Forall (fun a => is_index a = false) others ->
  StronglySorted index_le idx ->
  exists idx',
    insert_index i k (get_property bag k) (map (bind_in bag) (idx ++ others))
    = map (bind_in bag) (idx' ++ others)
    /\ Permutation idx' (idx ++ [k])
    /\ StronglySorted index_le idx'.
Proof.
  intros Hk Hidx Hothers Hsorted.
  induction idx as [|a idx IH].
  - exists [k]. split; [| split; [reflexivity | repeat constructor]].
    destruct others as [|b others]; [reflexivity |].
    apply Forall_cons in Hothers as [Hb _]. unfold is_index in Hb.
    simpl. destruct (array_index b); [discriminate | reflexivity].
  - apply Forall_cons in Hidx as [Ha Hidx].
    apply StronglySorted_inv in Hsorted as [Hsorted Hle].
    unfold is_index in Ha. simpl.
    destruct (array_index a) as [j|] eqn:Hj; [| discriminate].
    destruct (N.ltb_spec j i) as [Hlt | Hge].
    + destruct (IH Hidx Hsorted) as (idx' & Heq & Hperm & Hsorted').
      exists (a :: idx'). split; [| split].
      * simpl. now rewrite Heq.
      * simpl. now apply Permutation_cons.
      * constructor; [exact Hsorted' |].
        apply (Permutation_Forall (x := idx ++ [k])); [now symmetry |].
        apply Forall_app. split; [exact Hle |].
        constructor; [| constructor]. unfold index_le. rewrite Hj, Hk. lia.
    + exists (k :: a :: idx). split; [reflexivity | split].
      * apply (Permutation_cons_append (a :: idx) k).
      * assert (index_le k a) as Hka by (unfold index_le; rewrite Hj, Hk; lia).
        constructor; [constructor; assumption |].
        constructor; [exact Hka |].
        eapply Forall_impl; [exact Hle |]. intros x Hx.
        eapply index_le_trans; eassumption.
Qed.

Lemma inherited_proto : inherited "__proto__" = true.
Proof. reflexivity. Qed.

(** The accumulator after the [reduce]: the present keys, the index keys
    first in ascending order, the others in the order of declaration. *)
Lemma taskObject_enumeration (keys : list string) (bag : props) :
  Forall (fun key => inherited key = false) keys ->
  exists idx,
    taskObject keys bag
    = map (bind_in bag) (idx ++ List.filter not_index (present_keys keys bag))
    /\ Permutation idx (List.filter is_index (present_keys keys bag))
    /\ StronglySorted index_le idx.
Proof.
  induction keys as [|k keys IH] using rev_ind; intros Hkeys.
  - exists []. repeat split; constructor.
  - apply Forall_app in Hkeys as [Hkeys Hk].
    apply Forall_cons in Hk as [Hk _].
    destruct (IH Hkeys) as (idx & Hacc & Hperm & Hsorted). clear IH.
    unfold taskObject in *. rewrite fold_left_app. simpl. rewrite Hacc.
    rewrite present_keys_snoc.
    unfold has_property. rewrite Hk, orb_false_r.
    destruct (has_own bag k) eqn:Hown.
    2: { exists idx. destruct (bool_decide (k ∈ keys)); rewrite app_nil_r; auto. }
    assert (String.eqb k "__proto__" = false) as Hproto.
    { destruct (String.eqb_spec k "__proto__") as [->|]; [| reflexivity].
      rewrite inherited_proto in Hk. discriminate. }
    unfold set_property. rewrite Hproto, has_own_bind_in.
    assert (bool_decide (k ∈ idx ++ List.filter not_index (present_keys keys bag))
            = bool_decide (k ∈ keys)) as ->.
    { apply bool_decide_ext.
      rewrite elem_of_app, Hperm, !list_elem_of_In, !List.filter_In,
        <- !list_elem_of_In, elem_of_present_keys.
      unfold not_index. destruct (is_index k); simpl; intuition congruence. }
    destruct (bool_decide (k ∈ keys)).
    { exists idx. rewrite replace_own_bind_in, app_nil_r. auto. }
    rewrite !List.filter_app. cbn [List.filter].
    destruct (array_index k) as [i|] eqn:Hindex.
    + assert (is_index k = true) as Hi by (unfold is_index; now rewrite Hindex).
      assert (not_index k = false) as Hn by (unfold not_index; now rewrite Hi).
      rewrite Hi, Hn, app_nil_r.
      destruct (insert_index_sorted bag k i idx
                  (List.filter not_index (present_keys keys bag)))
        as (idx' & Heq & Hperm' & Hsorted'); try assumption.
      * apply (Permutation_Forall (x := List.filter is_index (present_keys keys bag)));
          [now symmetry |].
        apply List.Forall_forall. intros x Hx. now apply List.filter_In in Hx.
      * apply List.Forall_forall. intros x Hx. apply List.filter_In in Hx.
        now apply negb_true_iff.
      * exists idx'. split; [exact Heq | split; [| exact Hsorted']].
        rewrite Hperm'. now apply Permutation_app_tail.
    + assert (is_index k = false) as Hi by (unfold is_index; now rewrite Hindex).
      assert (not_index k = true) as Hn by (unfold not_index; now rewrite Hi).
      rewrite Hi, Hn, app_nil_r.
      exists idx. split; [| auto].
      rewrite app_assoc, (map_app _ (idx ++ _) [k]). reflexivity.
Qed.

(** C5, as amended.  When no declared task key is a property name of
    [Object.prototype], the object serialized into the task section holds
    exactly the declared keys that the bag has as its own, each once and
    bound to the value of the bag; the keys that are canonical array
    indices come first, in ascending numeric order, and the other keys
    follow in the order of their first declaration, whatever the order of
    the keys of the bag.  A declared key the bag lacks gives no element and
    no error. *)
Theorem build_task_section σ (this values : loc) (cfg : config) (bag : props) :
  config_at σ this = Some cfg ->
  σ !! values = Some (Plain bag) ->
  cfg_taskKeys cfg <> [] ->
  Forall (fun key => inherited key = false) (cfg_taskKeys cfg) ->
  exists idx σ',
    build this values σ
    = Some (instructions_section cfg bag
            +:+ examples_section (cfg_examples cfg)
            +:+ task_element
                  (map (bind_in bag)
                     (idx ++ List.filter not_index
                               (present_keys (cfg_taskKeys cfg) bag))),
            σ')
    /\ Permutation idx (List.filter is_index (present_keys (cfg_taskKeys cfg) bag))
    /\ StronglySorted index_le idx.
Proof.
  intros Hcfg Hvalues Hkeys Hplain.
  destruct (build_runs σ this values cfg bag Hcfg Hvalues)
    as (s & σ' & Hrun & -> & _).
  destruct (taskObject_enumeration (cfg_taskKeys cfg) bag Hplain)
    as (idx & Hobj & Hperm & Hsorted).
  exists idx, σ'. split; [| auto].
  rewrite Hrun. unfold prompt, task_section.
  destruct (cfg_taskKeys cfg); [contradiction |]. now rewrite Hobj.
Qed.

Lemma build_task_section_witness :
  exists idx σ',
    build 1%positive 4%positive (store_of cfg_order bag_order)
    = Some (instructions_section cfg_order bag_order
            +:+ examples_section (cfg_examples cfg_order)
            +:+ task_element
                  (map (bind_in bag_order)
                     (idx ++ List.filter not_index
                               (present_keys (cfg_taskKeys cfg_order) bag_order))),
            σ')
    /\ Permutation idx
         (List.filter is_index (present_keys (cfg_taskKeys cfg_order) bag_order))
    /\ StronglySorted index_le idx.
Proof.
  apply (build_task_section (store_of cfg_order bag_order) 1%positive 4%positive
           cfg_order bag_order);
    [reflexivity | reflexivity | discriminate | repeat constructor].
Defined.

(** C5, as stated, fails: with the task keys [b], [0] and a bag that holds
    both, the task section lists [0] before [b]. *)
Lemma build_task_section_counterexample :
  output_of cfg_order bag_order
  = Some ("<instructions>Go</instructions>" +:+ str1 newline +:+ str1 newline
          +:+ "<task><0>1</0><b>2</b></task>")
  /\ specified_prompt cfg_order bag_order
     = "<instructions>Go</instructions>" +:+ str1 newline +:+ str1 newline
       +:+ "<task><b>2</b><0>1</0></task>"
  /\ output_of cfg_order bag_order <> Some (specified_prompt cfg_order bag_order).
Proof.
  split; [vm_compute; reflexivity |].
  split; [vm_compute; reflexivity |].
  vm_compute. discriminate.
Qed.

(** Without index keys among the declared task keys, and without names
    of [Object.prototype], the task object is the one the specification
    describes. *)
Lemma build_task_section_declared_order σ (this values : loc)
    (cfg : config) (bag : props) :
  config_at σ this = Some cfg ->
  σ !! values = Some (Plain bag) ->
  cfg_taskKeys cfg <> [] ->
  Forall (fun key => inherited key = false /\ is_index key = false)
    (cfg_taskKeys cfg) ->
  exists σ', build this values σ = Some (specified_prompt cfg bag, σ').
Proof.
  intros Hcfg Hvalues Hkeys Hplain.
  destruct (build_runs σ this values cfg bag Hcfg Hvalues)
    as (s & σ' & Hrun & -> & _).
  destruct (taskObject_enumeration (cfg_taskKeys cfg) bag)
    as (idx & Hobj & Hperm & _).
  { eapply Forall_impl; [exact Hplain |]. now intros key [H _]. }
  exists σ'. rewrite Hrun.
  unfold prompt, task_section, specified_prompt, declared_present.
  destruct (cfg_taskKeys cfg) as [|key0 keys0] eqn:Heq; [contradiction |].
  rewrite Hobj. clear Hobj.
  assert (forall l, List.Forall (fun key => is_index key = false) l ->
                    List.filter is_index l = [] /\ List.filter not_index l = l)
    as Hfilter.
  { induction 1 as [|a l Ha _ [IH1 IH2]]; [split; reflexivity |].
    simpl. unfold not_index at 1. rewrite Ha. simpl. now rewrite IH1, IH2. }
  destruct (Hfilter (present_keys (key0 :: keys0) bag)) as [Hnone Hall].
  { apply List.Forall_forall. intros key Hkey.
    apply list_elem_of_In, elem_of_present_keys in Hkey as [Hkey _].
    rewrite Forall_forall in Hplain. now apply Hplain. }
  rewrite Hnone in Hperm. apply Permutation_nil_r in Hperm as ->.
  now rewrite Hall.
Qed.

Lemma build_task_section_declared_order_witness :
  exists σ',
    build 1%positive 4%positive (store_of cfg_sample bag_sample)
    = Some (specified_prompt cfg_sample bag_sample, σ').
Proof.
  apply (build_task_section_declared_order (store_of cfg_sample bag_sample)
           1%positive 4%positive cfg_sample bag_sample);
    [reflexivity | reflexivity | discriminate | repeat constructor].
Defined.

(** C10.  A declared task key that the bag does not hold but that every
    plain object inherits is collected all the same: with the task key
    [toString] and the empty bag the output does not end with an empty
    task section, the section holds the native function as text. *)
Theorem build_inherited_task_key :
  output_of cfg_inherited []
  = Some ("<instructions>Go</instructions>" +:+ str1 newline +:+ str1 newline
          +:+ "<task><toString>function toString() { [native code] }</toString></task>").
Proof. vm_compute. reflexivity. Qed.

(** When the [in] operator finds none of the declared task keys in the bag,
    the task section is emitted with empty content. *)
Lemma taskObject_nothing (keys : list string) (bag : props) :
  Forall (fun key => has_property bag key = false) keys -> taskObject keys bag = [].
Proof.
  unfold taskObject. induction 1 as [|key keys Hkey _ IH]; simpl; [reflexivity |].
  now rewrite Hkey.
Qed.

Lemma build_empty_task_section σ (this values : loc) (cfg : config) (bag : props) :
  config_at σ this = Some cfg ->
  σ !! values = Some (Plain bag) ->
  cfg_taskKeys cfg <> [] ->
  Forall (fun key => has_property bag key = false) (cfg_taskKeys cfg) ->
  exists σ',
    build this values σ
    = Some (instructions_section cfg bag
            +:+ examples_section (cfg_examples cfg)
            +:+ str1 newline +:+ str1 newline +:+ "<task></task>", σ').
Proof.
  intros Hcfg Hvalues Hkeys Hnone.
  destruct (build_runs σ this values cfg bag Hcfg Hvalues)
    as (s & σ' & Hrun & -> & _).
  exists σ'. rewrite Hrun. unfold prompt, task_section.
  destruct (cfg_taskKeys cfg) as [|key keys]; [contradiction |].
  now rewrite (taskObject_nothing _ _ Hnone).
Qed.

Lemma build_empty_task_section_witness :
  exists σ',
    build 1%positive 4%positive (store_of cfg_order [])
    = Some (instructions_section cfg_order []
            +:+ examples_section (cfg_examples cfg_order)
            +:+ str1 newline +:+ str1 newline +:+ "<task></task>", σ').
Proof.
  apply (build_empty_task_section (store_of cfg_order []) 1%positive 4%positive
           cfg_order []);
    [reflexivity | reflexivity | discriminate | repeat constructor].
Defined.

(** ** The test suite

    Expectations of the test suite of the repository, evaluated on the
    model. *)

Lemma test_replace_placeholders :
  replaceTemplateVariables "Hello {{name}}, you are {{age}}"
    [("name"%string, Str "Alice"); ("age"%string, Num 30)]
  = "Hello " +:+ str1 quot +:+ "Alice" +:+ str1 quot +:+ ", you are 30"
  /\ replaceTemplateVariables "Hello {{name}}, you are {{age}}"
       [("name"%string, Str "Alice")]
     = "Hello " +:+ str1 quot +:+ "Alice" +:+ str1 quot +:+ ", you are {{age}}"
  /\ replaceTemplateVariables "User: {{user}}"
       [("user"%string, Obj [("name"%string, Str "Bob"); ("age"%string, Num 25)])]
     = "User: {" +:+ str1 quot +:+ "name" +:+ str1 quot +:+ ":" +:+ str1 quot
       +:+ "Bob" +:+ str1 quot +:+ "," +:+ str1 quot +:+ "age" +:+ str1 quot
       +:+ ":25}"
  /\ replaceTemplateVariables "Items: {{items}}"
       [("items"%string, Arr [Num 1; Num 2; Num 3])]
     = "Items: [1,2,3]"%string
  /\ replaceTemplateVariables "Active: {{active}}" [("active"%string, Bool true)]
     = "Active: true"%string
  /\ replaceTemplateVariables "Hello World" [("name"%string, Str "Test")]
     = "Hello World"%string.
Proof. repeat split; vm_compute; reflexivity. Qed.

Lemma test_escapeXml :
  escapeXml "Tom & Jerry" = "Tom &amp; Jerry"%string
  /\ escapeXml "It's working" = "It&apos;s working"%string
  /\ escapeXml ("<tag attr=" +:+ str1 quot +:+ "value" +:+ str1 quot
                +:+ ">5 < 10 & 'test'</tag>")
     = "&lt;tag attr=&quot;value&quot;&gt;5 &lt; 10 &amp; &apos;test&apos;&lt;/tag&gt;"%string
  /\ escapeXml "Hello World" = "Hello World"%string.
Proof. repeat split; vm_compute; reflexivity. Qed.

Lemma test_objectToXml :
  objectToXml (Arr [Num 1; Num 2; Num 3]) None = "123"%string
  /\ objectToXml (Arr [Str "a"; Str "b"]) (Some [("index"%string, Num 0)])
     = "ab"%string
  /\ objectToXml (Obj [("name"%string, Str "Alice"); ("age"%string, Num 30)]) None
     = "<name>Alice</name><age>30</age>"%string
  /\ objectToXml (Obj [("name"%string, Str "Test")]) (Some [("index"%string, Num 5)])
     = "<name index=" +:+ str1 quot +:+ "5" +:+ str1 quot +:+ ">Test</name>"
  /\ objectToXml
       (Obj [("user"%string,
              Obj [("name"%string, Str "Charlie");
                   ("tags"%string, Arr [Str "admin"; Str "user"]);
                   ("active"%string, Bool true)])]) None
     = "<user><name>Charlie</name><tags>adminuser</tags><active>true</active></user>"%string
  /\ objectToXml
       (Arr [Obj [("id"%string, Num 1); ("name"%string, Str "First")];
             Obj [("id"%string, Num 2); ("name"%string, Str "Second")]]) None
     = "<id index=" +:+ str1 quot +:+ "0" +:+ str1 quot +:+ ">1</id><name index="
       +:+ str1 quot +:+ "0" +:+ str1 quot +:+ ">First</name><id index="
       +:+ str1 quot +:+ "1" +:+ str1 quot +:+ ">2</id><name index="
       +:+ str1 quot +:+ "1" +:+ str1 quot +:+ ">Second</name>".
Proof. repeat split; vm_compute; reflexivity. Qed.

(** The chain of the integration test, every method run in the store the
    previous one left. *)
Lemma test_promptBuilder :
  run (b <- promptBuilder ;;
       b <- instruction b "Analyze the {{dataType}}" ;;
       b <- example b (Obj [("data"%string, Str "sample")])
              (Obj [("result"%string, Str "processed")]) ;;
       b <- taskKey b "userId" ;;
       b <- taskKey b "data" ;;
       values <- alloc (Plain [("dataType"%string, Str "user activity");
                               ("userId"%string, Num 456);
                               ("data"%string, Str "click events")]) ;;
       build b values)
  = Some ("<instructions>Analyze the " +:+ str1 quot +:+ "user activity"
          +:+ str1 quot +:+ "</instructions>" +:+ str1 newline +:+ str1 newline
          +:+ "<examples>" +:+ str1 newline +:+ "<example index=" +:+ str1 quot
          +:+ "0" +:+ str1 quot +:+ "><input><data>sample</data></input><output>{"
          +:+ str1 quot +:+ "result" +:+ str1 quot +:+ ":" +:+ str1 quot
          +:+ "processed" +:+ str1 quot +:+ "}</output></example>"
          +:+ str1 newline +:+ "</examples>" +:+ str1 newline +:+ str1 newline
          +:+ "<task><userId>456</userId><data>click events</data></task>").
Proof. vm_compute. reflexivity. Qed.

(** * Further properties *)

(** ** [escapeXml], continued *)

Lemma escape_each_append (a b : string) :
  escape_each (a +:+ b) = escape_each a +:+ escape_each b.
Proof.
  induction a as [|c a IH]; simpl; [reflexivity |].
  now rewrite IH, append_assoc.
Qed.

(** Escaping distributes over concatenation: a text may be escaped piece
    by piece. *)
Theorem escapeXml_append (a b : string) :
  escapeXml (a +:+ b) = escapeXml a +:+ escapeXml b.
Proof. rewrite !escapeXml_escape_each. apply escape_each_append. Qed.

Lemma contains_append (c : ascii) (a b : string) :
  contains c (a +:+ b) = contains c a || contains c b.
Proof.
  induction a as [|x a IH]; simpl; [reflexivity |].
  now rewrite IH, orb_assoc.
Qed.

Lemma contains_escape_char (c x : ascii) :
  reserved c = true -> c <> "&"%char -> contains c (escape_char x) = false.
Proof.
  unfold reserved, escape_char. intros Hc Hamp.
  rewrite (proj2 (Ascii.eqb_neq c "&") Hamp) in Hc. simpl in Hc.
  destruct (Ascii.eqb_spec x "&") as [->|Hx1].
  { repeat (apply orb_true_iff in Hc as [Hc | Hc]);
      apply Ascii.eqb_eq in Hc; subst c; reflexivity. }
  destruct (Ascii.eqb_spec x "<") as [->|Hx2].
  { repeat (apply orb_true_iff in Hc as [Hc | Hc]);
      apply Ascii.eqb_eq in Hc; subst c; reflexivity. }
  destruct (Ascii.eqb_spec x ">") as [->|Hx3].
  { repeat (apply orb_true_iff in Hc as [Hc | Hc]);
      apply Ascii.eqb_eq in Hc; subst c; reflexivity. }
  destruct (Ascii.eqb_spec x quot) as [->|Hx4].
  { repeat (apply orb_true_iff in Hc as [Hc | Hc]);
      apply Ascii.eqb_eq in Hc; subst c; reflexivity. }
  destruct (Ascii.eqb_spec x "'") as [->|Hx5].
  { repeat (apply orb_true_iff in Hc as [Hc | Hc]);
      apply Ascii.eqb_eq in Hc; subst c; reflexivity. }
  simpl. rewrite orb_false_r. apply Ascii.eqb_neq.
  repeat (apply orb_true_iff in Hc as [Hc | Hc]);
    apply Ascii.eqb_eq in Hc; subst c; assumption.
Qed.

Lemma contains_escape_each (c : ascii) (s : string) :
  reserved c = true -> c <> "&"%char -> contains c (escape_each s) = false.
Proof.
  intros Hc Hamp. induction s as [|x s IH]; [reflexivity |].
  simpl. now rewrite contains_append, contains_escape_char, IH.
Qed.

(** The escaped text holds no [<], no [>], no double quote and no
    apostrophe, whatever the input. *)
Theorem escapeXml_no_markup (s : string) :
  contains "<" (escapeXml s) = false
  /\ contains ">" (escapeXml s) = false
  /\ contains quot (escapeXml s) = false
  /\ contains "'" (escapeXml s) = false.
Proof.
  rewrite escapeXml_escape_each.
  repeat split; apply contains_escape_each; (reflexivity || discriminate).
Qed.

Lemma escape_char_cases (c : ascii) :
  (reserved c = false /\ escape_char c = str1 c)
  \/ (c = "&"%char /\ escape_char c = "&amp;"%string)
  \/ (c = "<"%char /\ escape_char c = "&lt;"%string)
  \/ (c = ">"%char /\ escape_char c = "&gt;"%string)
  \/ (c = quot /\ escape_char c = "&quot;"%string)
  \/ (c = "'"%char /\ escape_char c = "&apos;"%string).
Proof.
  unfold escape_char, reserved.
  destruct (Ascii.eqb_spec c "&") as [->|]; [auto 10 |].
  destruct (Ascii.eqb_spec c "<") as [->|]; [auto 10 |].
  destruct (Ascii.eqb_spec c ">") as [->|]; [auto 10 |].
  destruct (Ascii.eqb_spec c quot) as [->|]; [auto 10 |].
  destruct (Ascii.eqb_spec c "'") as [->|]; [auto 10 |].
  left. split; reflexivity.
Qed.

Lemma escape_each_injective (s t : string) :
  escape_each s = escape_each t -> s = t.
Proof.
  revert t. induction s as [|c s IH]; intros [|d t] H.
  - reflexivity.
  - exfalso. simpl in H.
    destruct (escape_char_cases d) as [[_ E]|[[_ E]|[[_ E]|[[_ E]|[[_ E]|[_ E]]]]]];
      rewrite E in H; discriminate H.
  - exfalso. simpl in H.
    destruct (escape_char_cases c) as [[_ E]|[[_ E]|[[_ E]|[[_ E]|[[_ E]|[_ E]]]]]];
      rewrite E in H; discriminate H.
  - simpl in H.
    destruct (escape_char_cases c) as [[Rc Ec]|[[-> Ec]|[[-> Ec]|[[-> Ec]|[[-> Ec]|[-> Ec]]]]]];
      destruct (escape_char_cases d) as [[Rd Ed]|[[-> Ed]|[[-> Ed]|[[-> Ed]|[[-> Ed]|[-> Ed]]]]]];
      rewrite ?Ec, ?Ed in H; simpl in H;
      try discriminate H;
      try (injection H as H; f_equal; now apply IH);
      try (injection H as -> H; f_equal; now apply IH);
      try (injection H as H1 _; first [subst c | subst d]; discriminate).
Qed.

(** Escaping loses nothing: two different texts never have the same
    escaped form. *)
Theorem escapeXml_injective (s t : string) :
  escapeXml s = escapeXml t -> s = t.
Proof. rewrite !escapeXml_escape_each. apply escape_each_injective. Qed.

Lemma escapeXml_injective_witness : "a<b"%string = "a<b"%string.
Proof. apply (escapeXml_injective "a<b" "a<b"). reflexivity. Defined.

Lemma escape_each_unreserved (s : string) :
  has_reserved s = false -> escape_each s = s.
Proof.
  induction s as [|c s IH]; simpl; [reflexivity |].
  intros H. apply orb_false_iff in H as [Hc Hs].
  destruct (escape_char_cases c) as [[_ E]|[[-> _]|[[-> _]|[[-> _]|[[-> _]|[-> _]]]]]];
    try discriminate Hc.
  rewrite E, (IH Hs). reflexivity.
Qed.

(** The texts the Escaper returns unchanged are exactly those that hold
    none of the five reserved characters. *)
Theorem escapeXml_fixed_iff (s : string) :
  escapeXml s = s <-> has_reserved s = false.
Proof.
  rewrite escapeXml_escape_each. split.
  - intros H. destruct (has_reserved s) eqn:Hres; [| reflexivity].
    apply (proj2 (length_escape_each s)) in Hres. rewrite H in Hres. lia.
  - apply escape_each_unreserved.
Qed.

(** Escaping never shortens a text and makes it at most six times as
    long. *)
Theorem escapeXml_length (s : string) :
  String.length s <= String.length (escapeXml s)
  /\ String.length (escapeXml s) <= 6 * String.length s.
Proof.
  rewrite escapeXml_escape_each. split; [apply length_escape_each |].
  induction s as [|c s IH]; simpl; [lia |].
  rewrite length_append.
  destruct (escape_char_cases c) as [[_ E]|[[_ E]|[[_ E]|[[_ E]|[[_ E]|[_ E]]]]]];
    rewrite E; simpl; lia.
Qed.

(** ** [objectToXml], continued *)

Lemma join_app (l1 l2 : list string) : join (l1 ++ l2) = join l1 +:+ join l2.
Proof.
  induction l1 as [|a l1 IH]; [reflexivity |].
  simpl app. now rewrite !join_cons, IH, append_assoc.
Qed.

(** The fields of an object are serialized one after the other: the text
    of an object is the text of its first fields followed by the text of
    the remaining ones, under the same metadata. *)
Theorem objectToXml_fields_append (a b : props) (metadata : option props) :
  objectToXml (Obj (a ++ b)) metadata
  = objectToXml (Obj a) metadata +:+ objectToXml (Obj b) metadata.
Proof. rewrite !objectToXml_Obj, map_app. apply join_app. Qed.

Lemma objectToXml_metadata_ignored (v : value) (metadata : option props) :
  is_object v = false -> objectToXml v metadata = objectToXml v None.
Proof. destruct v; intros H; try reflexivity. discriminate H. Qed.

(** Positions matter to objects only: an array none of whose items is an
    object is the concatenation of its items serialized without metadata,
    so that nested arrays are flattened and primitives carry no index. *)
Theorem objectToXml_array_of_non_objects
    (items : list value) (metadata : option props) :
  List.Forall (fun v => is_object v = false) items ->
  objectToXml (Arr items) metadata
  = join (map (fun v => objectToXml v None) items).
Proof.
  intros Hitems. rewrite objectToXml_Arr. f_equal.
  change (map (fun v => objectToXml v None) items)
    with ((fun v => objectToXml v None) <$> items).
  rewrite <- imap_const. apply imap_ext. intros i v Hv. cbn beta.
  apply objectToXml_metadata_ignored.
  rewrite List.Forall_forall in Hitems. apply Hitems.
  apply list_elem_of_In. eapply list_elem_of_lookup_2. exact Hv.
Qed.

Lemma objectToXml_array_of_non_objects_witness :
  objectToXml (Arr [Arr [Str "a"; Num 1]; Str "<"; Arr []; Null])
    (Some [("index"%string, Num 7)])
  = join (map (fun v => objectToXml v None)
            [Arr [Str "a"; Num 1]; Str "<"; Arr []; Null]).
Proof.
  apply (objectToXml_array_of_non_objects
           [Arr [Str "a"; Num 1]; Str "<"; Arr []; Null]).
  repeat constructor.
Defined.

Lemma contains_join (c : ascii) (l : list string) :
  List.Forall (fun x => contains c x = false) l -> contains c (join l) = false.
Proof.
  induction 1 as [|x l Hx _ IH]; [reflexivity |].
  now rewrite join_cons, contains_append, Hx, IH.
Qed.

(** The decimal text of an integer is made of digits and a minus sign. *)
Lemma contains_string_of_Z (c : ascii) (z : Z) :
  reserved c = true -> contains c (string_of_Z z) = false.
Proof.
  intros Hc.
  assert (forall d, contains c (NilEmpty.string_of_uint d) = false) as Hdigits.
  { unfold reserved in Hc.
    induction d; simpl; rewrite ?IHd; try reflexivity;
      rewrite orb_false_r;
      repeat (apply orb_true_iff in Hc as [Hc | Hc]);
      apply Ascii.eqb_eq in Hc; subst c; reflexivity. }
  assert (forall d, contains c (NilZero.string_of_uint d) = false) as Hzero.
  { intros d. destruct d; try apply Hdigits.
    unfold reserved in Hc. simpl. rewrite orb_false_r.
    repeat (apply orb_true_iff in Hc as [Hc | Hc]);
      apply Ascii.eqb_eq in Hc; subst c; reflexivity. }
  unfold string_of_Z, NilZero.string_of_int.
  destruct (Z.to_int z) as [d|d]; [apply Hzero |].
  simpl. rewrite Hzero, orb_false_r.
  unfold reserved in Hc.
  repeat (apply orb_true_iff in Hc as [Hc | Hc]);
    apply Ascii.eqb_eq in Hc; subst c; reflexivity.
Qed.

Lemma objectToXml_object_free (c : ascii) (v : value) (metadata : option props) :
  reserved c = true -> c <> "&"%char ->
  object_free v = true -> contains c (objectToXml v metadata) = false.
Proof.
  intros Hc Hamp. revert metadata.
  induction v as [| |b|z|s|items IH|own _|name] using value_ind';
    intros metadata Hfree; try reflexivity; try discriminate Hfree.
  - destruct b; simpl; rewrite orb_false_r;
      unfold reserved in Hc;
      repeat (apply orb_true_iff in Hc as [Hc | Hc]);
      apply Ascii.eqb_eq in Hc; subst c; reflexivity.
  - now apply contains_string_of_Z.
  - change (objectToXml (Str s) metadata) with (escapeXml s).
    rewrite escapeXml_escape_each. now apply contains_escape_each.
  - rewrite objectToXml_Arr. apply contains_join.
    simpl in Hfree. rewrite forallb_forall in Hfree.
    rewrite List.Forall_forall in IH.
    apply List.Forall_forall. intros x Hx.
    apply list_elem_of_In, elem_of_lookup_imap in Hx as (i & item & -> & Hitem).
    apply list_elem_of_lookup_2, list_elem_of_In in Hitem.
    apply IH; [exact Hitem | now apply Hfree].
Qed.

(** A value made of strings, numbers, booleans, [null], [undefined] and
    arrays of such is serialized to a text without [<], [>], double quote
    or apostrophe: it cannot open or close an element of the prompt. *)
Theorem objectToXml_no_markup (v : value) (metadata : option props) :
  object_free v = true ->
  contains "<" (objectToXml v metadata) = false
  /\ contains ">" (objectToXml v metadata) = false
  /\ contains quot (objectToXml v metadata) = false
  /\ contains "'" (objectToXml v metadata) = false.
Proof.
  intros Hfree.
  repeat split; apply objectToXml_object_free;
    (reflexivity || discriminate || assumption).
Qed.

Lemma objectToXml_no_markup_witness :
  contains "<" (objectToXml (Arr [Str "</task>"; Num (-3); Arr [Bool true]]) None) = false
  /\ contains ">" (objectToXml (Arr [Str "</task>"; Num (-3); Arr [Bool true]]) None) = false
  /\ contains quot (objectToXml (Arr [Str "</task>"; Num (-3); Arr [Bool true]]) None) = false
  /\ contains "'" (objectToXml (Arr [Str "</task>"; Num (-3); Arr [Bool true]]) None) = false.
Proof.
  apply (objectToXml_no_markup (Arr [Str "</task>"; Num (-3); Arr [Bool true]]) None).
  reflexivity.
Defined.

(** ** [replaceTemplateVariables], continued *)

Lemma occurs_head (key rest : string) : occurs key (placeholder key +:+ rest).
Proof. exists EmptyString, rest. reflexivity. Qed.

Lemma occurs_after_placeholder (key key' rest : string) :
  occurs key rest -> occurs key (placeholder key' +:+ rest).
Proof.
  intros (before & rest' & ->).
  exists (placeholder key' +:+ before), rest'. now rewrite append_assoc.
Qed.

Lemma occurs_after_char (key : string) (c : ascii) (r : string) :
  occurs key r -> occurs key (String c r).
Proof. intros (before & rest & ->). exists (String c before), rest. reflexivity. Qed.

(** Two replacers that agree on the placeholders of the template give the
    same result. *)
Lemma replace_placeholders_agree (n : nat) (f g : string -> string -> string)
    (s : string) :
  (forall key, is_identifier key = true -> occurs key s ->
               f (placeholder key) key = g (placeholder key) key) ->
  replace_placeholders n f s = replace_placeholders n g s.
Proof.
  revert s. induction n as [|n IH]; intros s Hagree; [reflexivity |].
  cbn [replace_placeholders].
  destruct (match_placeholder s) as [[key rest]|] eqn:Hmatch.
  - apply match_placeholder_sound in Hmatch as [Hkey ->].
    change ("{{" +:+ key +:+ "}}") with (placeholder key).
    rewrite (Hagree key Hkey (occurs_head key rest)). f_equal.
    apply IH. intros k Hk Hocc. apply Hagree; [exact Hk |].
    now apply occurs_after_placeholder.
  - destruct s as [|c r]; [reflexivity |]. f_equal.
    apply IH. intros k Hk Hocc. apply Hagree; [exact Hk |].
    now apply occurs_after_char.
Qed.

Lemma replace_placeholders_identity (n : nat) (s : string) :
  replace_placeholders n (fun match_ _ => match_) s = s.
Proof.
  revert s. induction n as [|n IH]; intros s; [reflexivity |].
  cbn [replace_placeholders].
  destruct (match_placeholder s) as [[key rest]|] eqn:Hmatch.
  - apply match_placeholder_sound in Hmatch as [_ ->].
    rewrite IH. unfold placeholder. now rewrite !append_assoc.
  - destruct s as [|c r]; [reflexivity |]. now rewrite IH.
Qed.

(** Partial interpolation: a template none of whose placeholders names a
    property the [in] operator finds in the bag is returned as it is; in
    particular a template without any token [{{identifier}}] is returned
    unchanged by every bag. *)
Theorem replaceTemplateVariables_untouched (template : string) (values : props) :
  (forall key, is_identifier key = true -> occurs key template ->
               has_property values key = false) ->
  replaceTemplateVariables template values = template.
Proof.
  intros Hnone. unfold replaceTemplateVariables.
  rewrite <- (replace_placeholders_identity (String.length template) template) at 3.
  apply replace_placeholders_agree. intros key Hkey Hocc.
  now rewrite (Hnone key Hkey Hocc).
Qed.

(** The result depends on the bag through the placeholders of the
    template only: two bags in which every such name is found or not
    found alike, and read alike, give the same text. *)
Theorem replaceTemplateVariables_relevant_keys
    (template : string) (values values' : props) :
  (forall key, is_identifier key = true -> occurs key template ->
               has_property values key = has_property values' key
               /\ get_property values key = get_property values' key) ->
  replaceTemplateVariables template values
  = replaceTemplateVariables template values'.
Proof.
  intros Hsame. unfold replaceTemplateVariables.
  apply replace_placeholders_agree. intros key Hkey Hocc.
  destruct (Hsame key Hkey Hocc) as [-> ->]. reflexivity.
Qed.

(** A placeholder that occurs in a template brings its characters along. *)
Lemma occurs_contains (key s : string) (c : ascii) :
  occurs key s ->
  contains c (placeholder key) = true -> contains c s = true.
Proof.
  intros (before & rest & ->) Hc.
  rewrite !contains_append, Hc. now rewrite orb_true_r.
Qed.

Lemma replaceTemplateVariables_untouched_witness :
  replaceTemplateVariables "Analyze the sentiment of the following text" bag_sample
  = "Analyze the sentiment of the following text"%string.
Proof.
  apply (replaceTemplateVariables_untouched
           "Analyze the sentiment of the following text" bag_sample).
  intros key _ Hocc. exfalso.
  apply (occurs_contains key _ "{") in Hocc; [discriminate Hocc | reflexivity].
Defined.

Lemma replaceTemplateVariables_relevant_keys_witness :
  replaceTemplateVariables "Translate {{text}} to {{language}}" bag_sample
  = replaceTemplateVariables "Translate {{text}} to {{language}}"
      (bag_sample ++ [("zone"%string, Null)]).
Proof.
  apply (replaceTemplateVariables_relevant_keys
           "Translate {{text}} to {{language}}" bag_sample
           (bag_sample ++ [("zone"%string, Null)])).
  intros key _ Hocc.
  assert (String.eqb "zone" key = false) as Hne.
  { apply String.eqb_neq. intros <-.
    apply (occurs_contains "zone" _ "z") in Hocc; [discriminate Hocc | reflexivity]. }
  unfold has_property, has_own, get_property, bag_sample.
  cbn [app own_property]. rewrite Hne. split; reflexivity.
Defined.

(** ** Chains of method calls *)

Lemma invoke_returns_new σ (this : loc) (cfg : config) (c : call) :
  config_at σ this = Some cfg ->
  wp (invoke this c) σ (returns_new σ this (configure cfg c)).
Proof.
  intros H. destruct c as [template|input output|key]; simpl.
  - unfold instruction, returns_new. builder_method H.
  - unfold example, returns_new. builder_method H.
  - unfold taskKey, returns_new. builder_method H.
Qed.

Lemma fold_configure (calls : list call) (cfg : config) :
  fold_left configure calls cfg = configuration_after cfg calls.
Proof.
  revert cfg. induction calls as [|c calls IH]; intros cfg.
  - unfold configuration_after. simpl. rewrite !app_nil_r. now destruct cfg.
  - simpl fold_left. rewrite IH. unfold configuration_after.
    destruct c; simpl; rewrite <- ?app_assoc; reflexivity.
Qed.

Lemma chain_runs σ (this : loc) (cfg : config) (calls : list call) :
  config_at σ this = Some cfg ->
  wp (chain this calls) σ
    (fun b σ' => σ ⊆ σ' /\ config_at σ' b = Some (configuration_after cfg calls)).
Proof.
  rewrite <- fold_configure.
  revert σ this cfg. induction calls as [|c calls IH]; intros σ this cfg Hcfg.
  - simpl. apply wp_ret. split; [reflexivity | exact Hcfg].
  - simpl. apply wp_bind.
    eapply wp_mono; [apply (invoke_returns_new σ this cfg c Hcfg) |].
    intros b σ1 (_ & Hsub & _ & Hb). cbn beta.
    eapply wp_mono; [apply (IH σ1 b _ Hb) |].
    intros b' σ2 [Hsub' Hb']. split; [| exact Hb'].
    now transitivity σ1.
Qed.

(** Method chaining: whatever the calls and their order, the builder at
    the end of a chain carries the template of the last [instruction]
    call (the receiver's if there is none), the receiver's examples
    followed by those of the [example] calls in call order, and the
    receiver's task keys followed by those of the [taskKey] calls in call
    order; the receiver still stands for its own configuration. *)
Theorem chain_configuration σ (this : loc) (cfg : config) (calls : list call) :
  config_at σ this = Some cfg ->
  wp (chain this calls) σ
    (fun b σ' =>
       config_at σ' b = Some (configuration_after cfg calls)
       /\ config_at σ' this = Some cfg).
Proof.
  intros Hcfg. eapply wp_mono; [apply (chain_runs σ this cfg calls Hcfg) |].
  intros b σ' [Hsub Hb]. split; [exact Hb |].
  now apply (config_at_weaken σ).
Qed.

Lemma chain_configuration_witness :
  wp (chain 1%positive
        [CallTaskKey "data"; CallInstruction "Process {{action}}";
         CallExample (Str "in") (Str "out"); CallInstruction "Go"])
    (store_of cfg_sample bag_sample)
    (fun b σ' =>
       config_at σ' b
       = Some (configuration_after cfg_sample
                 [CallTaskKey "data"; CallInstruction "Process {{action}}";
                  CallExample (Str "in") (Str "out"); CallInstruction "Go"])
       /\ config_at σ' 1%positive = Some cfg_sample).
Proof.
  apply (chain_configuration (store_of cfg_sample bag_sample) 1%positive cfg_sample).
  reflexivity.
Defined.

(** Branching: two chains started from the same builder do not interfere.
    After both have run, each end builder carries its own chain on top of
    the shared configuration, and the shared builder is as it was. *)
Theorem chain_branches σ (this : loc) (cfg : config)
    (calls1 calls2 : list call) :
  config_at σ this = Some cfg ->
  wp (b1 <- chain this calls1 ;; b2 <- chain this calls2 ;; ret (b1, b2)) σ
    (fun b σ' =>
       config_at σ' (fst b) = Some (configuration_after cfg calls1)
       /\ config_at σ' (snd b) = Some (configuration_after cfg calls2)
       /\ config_at σ' this = Some cfg).
Proof.
  intros Hcfg. apply wp_bind.
  eapply wp_mono; [apply (chain_runs σ this cfg calls1 Hcfg) |].
  intros b1 σ1 [Hsub1 Hb1]. cbn beta. apply wp_bind.
  pose proof (config_at_weaken σ σ1 this cfg Hsub1 Hcfg) as Hcfg1.
  eapply wp_mono; [apply (chain_runs σ1 this cfg calls2 Hcfg1) |].
  intros b2 σ2 [Hsub2 Hb2]. cbn beta. apply wp_ret. simpl.
  split; [now apply (config_at_weaken σ1) |].
  split; [exact Hb2 |]. now apply (config_at_weaken σ1).
Qed.

Lemma chain_branches_witness :
  wp (b1 <- chain 1%positive [CallTaskKey "a"] ;;
      b2 <- chain 1%positive [CallInstruction "Go"; CallTaskKey "b"] ;;
      ret (b1, b2))
    (store_of cfg_sample bag_sample)
    (fun b σ' =>
       config_at σ' (fst b)
       = Some (configuration_after cfg_sample [CallTaskKey "a"])
       /\ config_at σ' (snd b)
          = Some (configuration_after cfg_sample
                    [CallInstruction "Go"; CallTaskKey "b"])
       /\ config_at σ' 1%positive = Some cfg_sample).
Proof.
  apply (chain_branches (store_of cfg_sample bag_sample) 1%positive cfg_sample).
  reflexivity.
Defined.

Lemma promptBuilder_runs σ :
  wp promptBuilder σ (fun b σ' => σ ⊆ σ' /\ config_at σ' b = Some cfg_initial).
Proof.
  unfold promptBuilder, new_PromptBuilder. repeat wp_step.
  split; [extends |]. unfold config_at.
  repeat first [ rewrite lookup_insert_eq
               | rewrite lookup_insert_ne by congruence ].
  reflexivity.
Qed.

(** The whole pipeline: a builder made by [promptBuilder], configured by
    any chain of calls and finalized, applied to a bag, returns the prompt
    of the configuration the chain amounts to, and leaves the objects of
    the store it started in, the bag among them, unchanged. *)
Theorem promptBuilder_chain_build σ (values : loc) (bag : props)
    (calls : list call) :
  σ !! values = Some (Plain bag) ->
  wp (b <- promptBuilder ;; b <- chain b calls ;; build b values) σ
    (fun s σ' =>
       s = prompt (configuration_after cfg_initial calls) bag /\ σ ⊆ σ').
Proof.
  intros Hvalues. apply wp_bind.
  eapply wp_mono; [apply promptBuilder_runs |].
  intros b0 σ0 [Hsub0 Hb0]. cbn beta. apply wp_bind.
  eapply wp_mono; [apply (chain_runs σ0 b0 cfg_initial calls Hb0) |].
  intros b σ1 [Hsub1 Hb]. cbn beta.
  assert (σ1 !! values = Some (Plain bag)) as Hvalues1.
  { eapply lookup_weaken; [exact Hvalues |]. now transitivity σ0. }
  eapply wp_mono; [apply (build_runs σ1 b values _ bag Hb Hvalues1) |].
  intros s σ2 [-> Hsub2]. split; [reflexivity |].
  transitivity σ0; [assumption |]. now transitivity σ1.
Qed.

Lemma promptBuilder_chain_build_witness :
  wp (b <- promptBuilder ;;
      b <- chain b [CallInstruction "Hello {{name}}"; CallTaskKey "userId"] ;;
      build b 4%positive)
    (store_of cfg_sample bag_sample)
    (fun s σ' =>
       s = prompt (configuration_after cfg_initial
                     [CallInstruction "Hello {{name}}"; CallTaskKey "userId"])
             bag_sample
       /\ store_of cfg_sample bag_sample ⊆ σ').
Proof.
  apply (promptBuilder_chain_build (store_of cfg_sample bag_sample) 4%positive
           bag_sample).
  reflexivity.
Defined.

(** ** The task object, continued *)










Lemma taskObject_snoc (keys : list string) (k : string) (bag : props) :
  taskObject (keys ++ [k]) bag
  = if has_property bag k
    then set_property (taskObject keys bag) k (get_property bag k)
    else taskObject keys bag.
Proof. unfold taskObject. now rewrite fold_left_app. Qed.











Lemma taskObject_agree (keys : list string) (bag bag' : props) :
  (forall k, k ∈ keys ->
             has_property bag k = has_property bag' k
             /\ get_property bag k = get_property bag' k) ->
  taskObject keys bag = taskObject keys bag'.
Proof.
  induction keys as [|k keys IH] using rev_ind; intros Hsame; [reflexivity |].
  rewrite !taskObject_snoc.
  destruct (Hsame k) as [-> ->]; [apply elem_of_app; right; apply list_elem_of_here |].
  rewrite IH; [reflexivity |].
  intros k' Hk'. apply Hsame, elem_of_app. now left.
Qed.

(** The prompt depends on the bag through the declared task keys and the
    placeholders of the instruction only: two bags in which each of these
    names is found or not found alike, and read alike, give the same
    prompt, whatever else they hold. *)
Theorem build_relevant_keys σ σ' (this this' values values' : loc)
    (cfg : config) (bag bag' : props) :
  config_at σ this = Some cfg ->
  config_at σ' this' = Some cfg ->
  σ !! values = Some (Plain bag) ->
  σ' !! values' = Some (Plain bag') ->
  (forall k,
      k ∈ cfg_taskKeys cfg
      \/ (is_identifier k = true /\ occurs k (cfg_instruction cfg)) ->
      has_property bag k = has_property bag' k
      /\ get_property bag k = get_property bag' k) ->
  exists s τ τ',
    build this values σ = Some (s, τ) /\ build this' values' σ' = Some (s, τ').
Proof.
  intros Hcfg Hcfg' Hvalues Hvalues' Hsame.
  destruct (build_runs σ this values cfg bag Hcfg Hvalues)
    as (s & τ & Hrun & -> & _).
  destruct (build_runs σ' this' values' cfg bag' Hcfg' Hvalues')
    as (s' & τ' & Hrun' & -> & _).
  exists (prompt cfg bag), τ, τ'. split; [exact Hrun |].
  rewrite Hrun'. do 2 f_equal.
  unfold prompt, instructions_section, task_section.
  rewrite (taskObject_agree (cfg_taskKeys cfg) bag bag') by (intros; apply Hsame; auto).
  unfold replaceTemplateVariables.
  rewrite (replace_placeholders_agree _ _
             (fun match_ key =>
                if has_property bag key then stringified (get_property bag key)
                else match_)); [reflexivity |].
  intros key Hkey Hocc. destruct (Hsame key) as [-> ->]; auto.
Qed.

Lemma build_relevant_keys_witness :
  exists s τ τ',
    build 1%positive 4%positive (store_of cfg_sample bag_sample) = Some (s, τ)
    /\ build 1%positive 4%positive
         (store_of cfg_sample (bag_sample ++ [("zone"%string, Null)]))
       = Some (s, τ').
Proof.
  apply (build_relevant_keys _ _ 1%positive 1%positive 4%positive 4%positive
           cfg_sample bag_sample (bag_sample ++ [("zone"%string, Null)]));
    try reflexivity.
  intros k Hk.
  assert (String.eqb "zone" k = false) as Hne.
  { apply String.eqb_neq. intros <-. destruct Hk as [Hk | [_ Hocc]].
    - unfold cfg_sample in Hk. simpl in Hk.
      repeat (apply elem_of_cons in Hk as [Hk | Hk]; [discriminate Hk |]).
      now apply elem_of_nil in Hk.
    - apply (occurs_contains "zone" _ "z") in Hocc;
        [discriminate Hocc | reflexivity]. }
  unfold has_property, has_own, get_property, bag_sample.
  cbn [app own_property]. rewrite Hne. split; reflexivity.
Defined.
